(** * A functional model of the SMMU translation engine

    Shallow embedding of the page-table walker (page_table.cpp), the
    translation cache (tlb.cpp) and the orchestrator (smmu.cpp), with the
    properties of the specification stated and proved over it.

    Conventions.  Fixed-width unsigned integers are values of [Z]; every
    place where the C++ arithmetic can wrap is written with an explicit
    [mod].  [std::unordered_map] is a [gmap], [std::list] and [std::queue]
    are lists (front of the container = head of the list, except that a
    queue is pushed at the back).  Member functions that mutate [*this]
    take the object and return the new object next to their result. *)

From Stdlib Require Import ZArith Lia.
From stdpp Require Import base gmap strings list fin_maps.

Local Open Scope Z_scope.

(** ** smmu_types.h *)

Abbreviation PhysicalAddress := Z (only parsing).
Abbreviation VirtualAddress := Z (only parsing).
Abbreviation StreamID := Z (only parsing).
Abbreviation ASID := Z (only parsing).
Abbreviation VMID := Z (only parsing).

Definition two64 : Z := 2 ^ 64.

(** Wrap-around of a [uint64_t] computation. *)
Definition u64 (x : Z) : Z := x mod two64.

(** Wrap-around of a [uint8_t] computation. *)
Definition u8 (x : Z) : Z := x mod 256.

Inductive PageSize : Type :=
| SIZE_4KB | SIZE_16KB | SIZE_64KB | SIZE_2MB | SIZE_32MB | SIZE_512MB | SIZE_1GB.

(** The enumerators' values ([static_cast<uint64_t>(page_size)]). *)
Definition page_size_value (p : PageSize) : Z :=
  match p with
  | SIZE_4KB => 0x1000
  | SIZE_16KB => 0x4000
  | SIZE_64KB => 0x10000
  | SIZE_2MB => 0x200000
  | SIZE_32MB => 0x2000000
  | SIZE_512MB => 0x20000000
  | SIZE_1GB => 0x40000000
  end.

Inductive TranslationStage : Type := STAGE1 | STAGE2 | STAGE1_AND_STAGE2.

Inductive MemoryType : Type :=
| DEVICE_nGnRnE | DEVICE_nGnRE | DEVICE_nGRE | DEVICE_GRE
| NORMAL_NC | NORMAL_WT | NORMAL_WB.

Inductive AccessPermission : Type := AP_NONE | READ_ONLY | WRITE_ONLY | READ_WRITE.

Inductive FaultType : Type :=
| FAULT_NONE | TRANSLATION_FAULT | PERMISSION_FAULT | ACCESS_FAULT
| ADDRESS_SIZE_FAULT | TLB_CONFLICT_FAULT | UNSUPPORTED_UPSTREAM_TRANSACTION.

Record TranslationResult : Type := mkTranslationResult {
  success : bool;
  physical_addr : PhysicalAddress;
  memory_type : MemoryType;
  permission : AccessPermission;
  cacheable : bool;
  shareable : bool;
  fault_reason : string
}.

(** [TranslationResult()] : the default constructor builds a failure. *)
Definition TranslationResult_default : TranslationResult :=
  {| success := false; physical_addr := 0; memory_type := NORMAL_WB;
     permission := AP_NONE; cacheable := true; shareable := false;
     fault_reason := "" |}.

(** A default result whose [fault_reason] has been assigned. *)
Definition fault (reason : string) : TranslationResult :=
  {| success := false; physical_addr := 0; memory_type := NORMAL_WB;
     permission := AP_NONE; cacheable := true; shareable := false;
     fault_reason := reason |}.

Module StreamTableEntry.

Record t : Type := mk {
  valid : bool;
  s1_enabled : bool;
  s2_enabled : bool;
  s1_context_ptr : PhysicalAddress;
  s2_translation_table_base : PhysicalAddress;
  vmid : VMID;
  s1_format : Z;
  s2_granule : Z
}.

(** [StreamTableEntry()] : an invalid entry. *)
Definition default : t :=
  {| valid := false; s1_enabled := false; s2_enabled := false;
     s1_context_ptr := 0; s2_translation_table_base := 0;
     vmid := 0; s1_format := 0; s2_granule := 0 |}.

End StreamTableEntry.

Module ContextDescriptor.

Record t : Type := mk {
  valid : bool;
  translation_table_base : PhysicalAddress;
  asid : ASID;
  translation_granule : Z;
  ips : Z;
  tg : Z;
  sh : Z;
  orgn : Z;
  irgn : Z
}.

(** [ContextDescriptor()] : an invalid descriptor. *)
Definition default : t :=
  {| valid := false; translation_table_base := 0; asid := 0;
     translation_granule := 0; ips := 0; tg := 0; sh := 0; orgn := 0;
     irgn := 0 |}.

End ContextDescriptor.

(** ** page_table.h / page_table.cpp *)

Module PageTableDescriptor.

Record t : Type := mk {
  valid : bool;
  is_table : bool;
  address : PhysicalAddress;
  ap : AccessPermission;
  mem_attr : MemoryType;
  shareable : bool;
  access_flag : bool;
  dirty : bool;
  contiguous : bool;
  privileged_execute_never : bool;
  execute_never : bool
}.

(** [PageTableDescriptor()] : an invalid descriptor. *)
Definition default : t :=
  {| valid := false; is_table := false; address := 0; ap := AP_NONE;
     mem_attr := NORMAL_WB; shareable := false; access_flag := false;
     dirty := false; contiguous := false;
     privileged_execute_never := false; execute_never := false |}.

End PageTableDescriptor.

(** [(desc >> n) & 0x1] read as a [bool]. *)
Definition bit_at (desc n : Z) : bool := negb (Z.land (Z.shiftr desc n) 1 =? 0).

Module PageTableWalker.

Definition get_page_size (level granule_size : Z) : PageSize :=
  if granule_size =? 12 then
    if level =? 0 then SIZE_512MB
    else if level =? 1 then SIZE_2MB
    else if level =? 2 then SIZE_4KB
    else if level =? 3 then SIZE_4KB
    else SIZE_4KB
  else if granule_size =? 14 then
    if level =? 0 then SIZE_1GB
    else if level =? 1 then SIZE_32MB
    else if level =? 2 then SIZE_16KB
    else if level =? 3 then SIZE_16KB
    else SIZE_16KB
  else if granule_size =? 16 then
    if level =? 1 then SIZE_512MB
    else if level =? 2 then SIZE_64KB
    else if level =? 3 then SIZE_64KB
    else SIZE_64KB
  else SIZE_4KB.

(** [bits_per_level] is a [uint8_t]; [shift] is computed in [int] and
    converted to [uint64_t]; [mask] is a [uint64_t].  Every call made by
    the walker has [granule_size] in {12,14,16} and [level] in 0..3, where
    both shift amounts stay below 64. *)
Definition get_index_bits (va level granule_size : Z) : Z :=
  let bits_per_level := u8 (granule_size - 3) in
  let shift := u64 (granule_size + (3 - level) * bits_per_level) in
  let mask := u64 (Z.shiftl 1 bits_per_level - 1) in
  Z.land (Z.shiftr va shift) mask.

Definition get_descriptor_address (table_base index granule_size : Z) : Z :=
  u64 (table_base + index * 8).

Definition parse_descriptor (desc level granule_size : Z) : PageTableDescriptor.t :=
  if Z.land desc 0x1 =? 0 then PageTableDescriptor.default
  else
    let desc_type := Z.land (Z.shiftr desc 1) 0x1 in
    let ap_bits := Z.land (Z.shiftr desc 6) 0x3 in
    let sh := Z.land (Z.shiftr desc 8) 0x3 in
    let attr_idx := Z.land (Z.shiftr desc 2) 0x7 in
    {| PageTableDescriptor.valid := true;
       PageTableDescriptor.is_table := if level <? 3 then desc_type =? 1 else false;
       PageTableDescriptor.address := Z.land desc 0x0000FFFFFFFFF000;
       PageTableDescriptor.ap := if ap_bits =? 0 then READ_WRITE
             else if ap_bits =? 1 then READ_WRITE
             else if ap_bits =? 2 then READ_ONLY
             else if ap_bits =? 3 then READ_ONLY
             else AP_NONE;
       PageTableDescriptor.mem_attr := if attr_idx =? 0 then DEVICE_nGnRnE
                   else if attr_idx =? 1 then DEVICE_nGnRE
                   else if attr_idx =? 2 then NORMAL_NC
                   else if attr_idx =? 3 then NORMAL_WT
                   else NORMAL_WB;
       PageTableDescriptor.shareable := negb (sh =? 0);
       PageTableDescriptor.access_flag := bit_at desc 10;
       PageTableDescriptor.dirty := bit_at desc 51;
       PageTableDescriptor.contiguous := bit_at desc 52;
       PageTableDescriptor.privileged_execute_never := bit_at desc 53;
       PageTableDescriptor.execute_never := bit_at desc 54 |}.

Definition is_cacheable (m : MemoryType) : bool :=
  match m with
  | NORMAL_WB | NORMAL_WT => true
  | _ => false
  end.

Record WalkContext : Type := mkWalkContext {
  ctx_va : VirtualAddress;
  ctx_ttb : PhysicalAddress;
  ctx_granule_size : Z;
  ctx_ips_bits : Z;
  ctx_start_level : Z;
  ctx_max_level : Z;
  ctx_stage : TranslationStage
}.

Section Walk.

(** The [MemoryReadCallback] the walker was constructed with: [Some d]
    when the callback returns [true] and stores [d], [None] when it
    returns [false]. *)
Variable memory_read_ : PhysicalAddress -> option Z.

Definition read_descriptor (addr : PhysicalAddress) : option Z := memory_read_ addr.

(** The [while (current_level <= ctx.max_level)] loop.  [remaining] is the
    number of levels from [current_level] to [max_level] inclusive, so
    [remaining = 0] is exactly the loop's exit condition.  Next to the
    result the function returns the descriptor addresses handed to the
    read callback, oldest first. *)
Fixpoint walk_loop (remaining : nat) (ctx : WalkContext)
    (table_base current_level : Z) : TranslationResult * list PhysicalAddress :=
  match remaining with
  | O => (fault "Translation fault: exceeded max level", [])
  | S remaining' =>
    let index := get_index_bits (ctx_va ctx) current_level (ctx_granule_size ctx) in
    let desc_addr := get_descriptor_address table_base index (ctx_granule_size ctx) in
    match read_descriptor desc_addr with
    | None => (fault "Failed to read descriptor", [desc_addr])
    | Some desc_value =>
      let desc := parse_descriptor desc_value current_level (ctx_granule_size ctx) in
      if negb (PageTableDescriptor.valid desc) then
        (fault "Translation fault: invalid descriptor", [desc_addr])
      else if negb (PageTableDescriptor.is_table desc) then
        let page_size := get_page_size current_level (ctx_granule_size ctx) in
        let page_mask := u64 (page_size_value page_size - 1) in
        let offset := Z.land (ctx_va ctx) page_mask in
        ({| success := true;
            physical_addr := u64 (PageTableDescriptor.address desc + offset);
            memory_type := PageTableDescriptor.mem_attr desc;
            permission := PageTableDescriptor.ap desc;
            cacheable := is_cacheable (PageTableDescriptor.mem_attr desc);
            shareable := PageTableDescriptor.shareable desc;
            fault_reason := "" |}, [desc_addr])
      else
        let '(r, reads) := walk_loop remaining' ctx (PageTableDescriptor.address desc) (current_level + 1) in
        (r, desc_addr :: reads)
    end
  end.

Definition walk_table (ctx : WalkContext) : TranslationResult * list PhysicalAddress :=
  walk_loop (Z.to_nat (ctx_max_level ctx + 1 - ctx_start_level ctx)) ctx
            (ctx_ttb ctx) (ctx_start_level ctx).

(** [PageTableWalker::translate], with the reads it performed. *)
Definition translate_reads (va ttb granule_size ips_bits : Z) (stage : TranslationStage)
    : TranslationResult * list PhysicalAddress :=
  let ctx sl ml := {| ctx_va := va; ctx_ttb := ttb; ctx_granule_size := granule_size;
                      ctx_ips_bits := ips_bits; ctx_start_level := sl;
                      ctx_max_level := ml; ctx_stage := stage |} in
  if granule_size =? 12 then walk_table (ctx 0 3)
  else if granule_size =? 14 then walk_table (ctx 0 3)
  else if granule_size =? 16 then walk_table (ctx 1 3)
  else (fault "Invalid granule size", []).

Definition translate (va ttb granule_size ips_bits : Z) (stage : TranslationStage)
    : TranslationResult :=
  fst (translate_reads va ttb granule_size ips_bits stage).

End Walk.

End PageTableWalker.

(** ** SimpleMemoryModel (page_table.cpp)

    The byte vector is kept sparsely: an address that is not in the map
    holds the zero it was initialised with.  [read] of eight bytes copies
    them into a [uint64_t]; the bytes are assembled little-endian. *)

Module SimpleMemoryModel.

Definition MEMORY_SIZE : Z := 256 * 1024 * 1024.

Record t : Type := mk {
  memory_ : gmap Z Z;
  next_alloc_ : PhysicalAddress
}.

Definition init : t := {| memory_ := ∅; next_alloc_ := 0x1000 |}.

Definition byte_at (m : t) (addr : Z) : Z := default 0 (memory_ m !! addr).

Fixpoint load_bytes (m : t) (addr : Z) (n : nat) : Z :=
  match n with
  | O => 0
  | S n' => byte_at m addr + 256 * load_bytes m (addr + 1) n'
  end.

Fixpoint store_bytes (mem : gmap Z Z) (addr value : Z) (n : nat) : gmap Z Z :=
  match n with
  | O => mem
  | S n' => store_bytes (<[addr := value mod 256]> mem) (addr + 1) (value / 256) n'
  end.

(** [data] is the little-endian value of the [size] bytes written. *)
Definition write (m : t) (addr data : Z) (size : nat) : t :=
  if u64 (addr + Z.of_nat size) <=? MEMORY_SIZE
  then {| memory_ := store_bytes (memory_ m) addr data size; next_alloc_ := next_alloc_ m |}
  else m.

Definition read (m : t) (addr : PhysicalAddress) (size : nat) : option Z :=
  if u64 (addr + Z.of_nat size) <=? MEMORY_SIZE
  then Some (load_bytes m addr size)
  else None.

Definition write_pte (m : t) (addr pte : Z) : t := write m addr pte 8.

Definition allocate_page (m : t) (size : Z) : t * PhysicalAddress :=
  let addr := next_alloc_ m in
  let m' := {| memory_ := memory_ m; next_alloc_ := u64 (next_alloc_ m + size) |} in
  if MEMORY_SIZE <? next_alloc_ m' then (m', 0) else (m', addr).

(** The callback [SMMU::set_memory_model] hands to the walker. *)
Definition memory_read (m : t) : PhysicalAddress -> option Z :=
  fun addr => read m addr 8.

End SimpleMemoryModel.

(** ** tlb.h / tlb.cpp *)

Module TLBEntry.

Record t : Type := mk {
  va : VirtualAddress;
  pa : PhysicalAddress;
  stream_id : StreamID;
  asid : ASID;
  vmid : VMID;
  page_size : PageSize;
  memory_type : MemoryType;
  permission : AccessPermission;
  cacheable : bool;
  shareable : bool;
  stage : TranslationStage;
  timestamp : Z
}.

Definition with_timestamp (e : t) (ts : Z) : t :=
  {| va := va e; pa := pa e; stream_id := stream_id e; asid := asid e;
     vmid := vmid e; page_size := page_size e; memory_type := memory_type e;
     permission := permission e; cacheable := cacheable e;
     shareable := shareable e; stage := stage e; timestamp := ts |}.

End TLBEntry.

(** [TLBKey] : (va_base, stream_id, asid, vmid), compared field by field. *)
Abbreviation TLBKey := (Z * Z * Z * Z)%type (only parsing).

Module TLB.

Record t : Type := mk {
  capacity_ : Z;
  timestamp_counter_ : Z;
  hit_count_ : Z;
  miss_count_ : Z;
  entries_ : gmap (Z * Z * Z * Z) TLBEntry.t;
  lru_list_ : list (Z * Z * Z * Z)
}.

(** [TLB::TLB(capacity)] *)
Definition create (capacity : Z) : t :=
  {| capacity_ := capacity; timestamp_counter_ := 0; hit_count_ := 0;
     miss_count_ := 0; entries_ := ∅; lru_list_ := [] |}.

Definition size (tlb : t) : nat := base.size (entries_ tlb).

(** [va & ~(page_size - 1)] on 64 bits. *)
Definition get_page_base (va : VirtualAddress) (page_size : PageSize) : VirtualAddress :=
  let mask := u64 (Z.lnot (page_size_value page_size - 1)) in
  Z.land va mask.

(** [std::list::remove] : drops every element equal to [key]. *)
Definition list_remove (key : TLBKey) (l : list TLBKey) : list TLBKey :=
  filter (λ k, k ≠ key) l.

Definition make_key (va : VirtualAddress) (page_size : PageSize)
    (stream_id asid vmid : Z) : TLBKey :=
  (get_page_base va page_size, stream_id, asid, vmid).

(** The page sizes [lookup] and [invalidate_by_va] iterate over. *)
Definition probe_sizes : list PageSize := [SIZE_1GB; SIZE_2MB; SIZE_64KB; SIZE_4KB].

Fixpoint lookup_loop (sizes : list PageSize) (tlb : t)
    (va stream_id asid vmid : Z) : t * option TLBEntry.t :=
  match sizes with
  | [] =>
    ({| capacity_ := capacity_ tlb; timestamp_counter_ := timestamp_counter_ tlb;
        hit_count_ := hit_count_ tlb; miss_count_ := u64 (miss_count_ tlb + 1);
        entries_ := entries_ tlb; lru_list_ := lru_list_ tlb |}, None)
  | page_size :: rest =>
    let key := make_key va page_size stream_id asid vmid in
    match entries_ tlb !! key with
    | Some e =>
      ({| capacity_ := capacity_ tlb; timestamp_counter_ := timestamp_counter_ tlb;
          hit_count_ := u64 (hit_count_ tlb + 1); miss_count_ := miss_count_ tlb;
          entries_ := entries_ tlb;
          lru_list_ := key :: list_remove key (lru_list_ tlb) |}, Some e)
    | None => lookup_loop rest tlb va stream_id asid vmid
    end
  end.

Definition lookup (tlb : t) (va stream_id asid vmid : Z) : t * option TLBEntry.t :=
  lookup_loop probe_sizes tlb va stream_id asid vmid.

Definition evict_lru (tlb : t) : t :=
  match last (lru_list_ tlb) with
  | None => tlb
  | Some lru_key =>
    {| capacity_ := capacity_ tlb; timestamp_counter_ := timestamp_counter_ tlb;
       hit_count_ := hit_count_ tlb; miss_count_ := miss_count_ tlb;
       entries_ := delete lru_key (entries_ tlb);
       lru_list_ := removelast (lru_list_ tlb) |}
  end.

Definition insert (tlb : t) (entry : TLBEntry.t) : t :=
  let key := make_key (TLBEntry.va entry) (TLBEntry.page_size entry)
                      (TLBEntry.stream_id entry) (TLBEntry.asid entry)
                      (TLBEntry.vmid entry) in
  let tlb1 :=
    match entries_ tlb !! key with
    | Some _ =>
      {| capacity_ := capacity_ tlb; timestamp_counter_ := timestamp_counter_ tlb;
         hit_count_ := hit_count_ tlb; miss_count_ := miss_count_ tlb;
         entries_ := entries_ tlb; lru_list_ := list_remove key (lru_list_ tlb) |}
    | None =>
      if capacity_ tlb <=? Z.of_nat (base.size (entries_ tlb)) then evict_lru tlb else tlb
    end in
  let new_entry := TLBEntry.with_timestamp entry (timestamp_counter_ tlb1) in
  {| capacity_ := capacity_ tlb1;
     timestamp_counter_ := u64 (timestamp_counter_ tlb1 + 1);
     hit_count_ := hit_count_ tlb1; miss_count_ := miss_count_ tlb1;
     entries_ := <[key := new_entry]> (entries_ tlb1);
     lru_list_ := key :: lru_list_ tlb1 |}.

(** The shape shared by the invalidation loops: every entry satisfying
    [hit] is erased from the map and its key removed from the list. *)
Definition erase_if (hit : TLBEntry.t -> bool) (tlb : t) : t :=
  let erased (k : TLBKey) : bool :=
    match entries_ tlb !! k with
    | Some e => hit e
    | None => false
    end in
  {| capacity_ := capacity_ tlb; timestamp_counter_ := timestamp_counter_ tlb;
     hit_count_ := hit_count_ tlb; miss_count_ := miss_count_ tlb;
     entries_ := filter (λ kv, hit (kv.2) = false) (entries_ tlb);
     lru_list_ := filter (λ k, erased k = false) (lru_list_ tlb) |}.

Definition invalidate_all (tlb : t) : t :=
  {| capacity_ := capacity_ tlb; timestamp_counter_ := timestamp_counter_ tlb;
     hit_count_ := hit_count_ tlb; miss_count_ := miss_count_ tlb;
     entries_ := ∅; lru_list_ := [] |}.

Definition invalidate_by_asid (tlb : t) (asid : ASID) : t :=
  erase_if (λ e, TLBEntry.asid e =? asid) tlb.

Definition invalidate_by_vmid (tlb : t) (vmid : VMID) : t :=
  erase_if (λ e, TLBEntry.vmid e =? vmid) tlb.

Definition invalidate_by_va (tlb : t) (va : VirtualAddress) (asid : ASID) : t :=
  foldl (λ tlb' page_size,
           let va_base := get_page_base va page_size in
           erase_if (λ e, (TLBEntry.asid e =? asid) &&
                          (get_page_base (TLBEntry.va e) (TLBEntry.page_size e) =? va_base))
                    tlb')
        tlb probe_sizes.

Definition invalidate_by_stream (tlb : t) (stream_id : StreamID) : t :=
  erase_if (λ e, TLBEntry.stream_id e =? stream_id) tlb.

End TLB.

(** ** smmu.h / smmu.cpp *)

(** [struct Command] : the type tag together with the member of the union
    that [process_command] reads for that tag. *)
Inductive Command : Type :=
| CMD_SYNC
| CMD_PREFETCH_CONFIG
| CMD_PREFETCH_ADDR
| CMD_CFGI_STE (stream_id : StreamID)
| CMD_CFGI_CD (stream_id : StreamID) (asid : ASID)
| CMD_CFGI_ALL
| CMD_TLBI_NH_ALL
| CMD_TLBI_NH_ASID (asid : ASID)
| CMD_TLBI_NH_VA (va : VirtualAddress) (asid : ASID)
| CMD_TLBI_S12_VMALL (vmid : VMID).

Module Event.

Record t : Type := mk {
  fault_type : FaultType;
  stream_id : StreamID;
  asid : ASID;
  vmid : VMID;
  va : VirtualAddress;
  description : string;
  timestamp : Z
}.

(** [Event()] *)
Definition default : t :=
  {| fault_type := FAULT_NONE; stream_id := 0; asid := 0; vmid := 0;
     va := 0; description := ""; timestamp := 0 |}.

End Event.

Module SMMUConfig.

Record t : Type := mk {
  tlb_size : Z;
  stream_table_size : Z;
  command_queue_size : Z;
  event_queue_size : Z;
  stage1_enabled : bool;
  stage2_enabled : bool
}.

(** [SMMUConfig()] *)
Definition default : t :=
  {| tlb_size := 128; stream_table_size := 256; command_queue_size := 64;
     event_queue_size := 64; stage1_enabled := true; stage2_enabled := false |}.

End SMMUConfig.

Module Statistics.

Record t : Type := mk {
  total_translations : Z;
  tlb_hits : Z;
  tlb_misses : Z;
  page_table_walks : Z;
  translation_faults : Z;
  permission_faults : Z;
  commands_processed : Z;
  events_generated : Z
}.

Definition zero : t := mk 0 0 0 0 0 0 0 0.

(** [stats_.<field>++] on a [uint64_t] field. *)
Definition inc_total_translations (s : t) : t :=
  mk (u64 (total_translations s + 1)) (tlb_hits s) (tlb_misses s) (page_table_walks s)
     (translation_faults s) (permission_faults s) (commands_processed s) (events_generated s).
Definition inc_tlb_hits (s : t) : t :=
  mk (total_translations s) (u64 (tlb_hits s + 1)) (tlb_misses s) (page_table_walks s)
     (translation_faults s) (permission_faults s) (commands_processed s) (events_generated s).
Definition inc_tlb_misses (s : t) : t :=
  mk (total_translations s) (tlb_hits s) (u64 (tlb_misses s + 1)) (page_table_walks s)
     (translation_faults s) (permission_faults s) (commands_processed s) (events_generated s).
Definition inc_page_table_walks (s : t) : t :=
  mk (total_translations s) (tlb_hits s) (tlb_misses s) (u64 (page_table_walks s + 1))
     (translation_faults s) (permission_faults s) (commands_processed s) (events_generated s).
Definition inc_translation_faults (s : t) : t :=
  mk (total_translations s) (tlb_hits s) (tlb_misses s) (page_table_walks s)
     (u64 (translation_faults s + 1)) (permission_faults s) (commands_processed s)
     (events_generated s).
Definition inc_commands_processed (s : t) : t :=
  mk (total_translations s) (tlb_hits s) (tlb_misses s) (page_table_walks s)
     (translation_faults s) (permission_faults s) (u64 (commands_processed s + 1))
     (events_generated s).
Definition inc_events_generated (s : t) : t :=
  mk (total_translations s) (tlb_hits s) (tlb_misses s) (page_table_walks s)
     (translation_faults s) (permission_faults s) (commands_processed s)
     (u64 (events_generated s + 1)).

End Statistics.

Module SMMU.

(** The members of [class SMMU].  The walker and the memory model it reads
    are not part of the record: the functions below take the walker's read
    callback as a parameter, which is the state [set_memory_model] leaves
    behind. *)
Record t : Type := mk {
  config_ : SMMUConfig.t;
  enabled_ : bool;
  tlb_ : TLB.t;
  stream_table_ : gmap Z StreamTableEntry.t;
  context_descriptors_ : gmap Z ContextDescriptor.t;
  command_queue_ : list Command;
  event_queue_ : list Event.t;
  stats_ : Statistics.t;
  timestamp_counter_ : Z
}.

(** [SMMU::SMMU(config)] *)
Definition create (config : SMMUConfig.t) : t :=
  {| config_ := config; enabled_ := false;
     tlb_ := TLB.create (SMMUConfig.tlb_size config);
     stream_table_ := ∅; context_descriptors_ := ∅;
     command_queue_ := []; event_queue_ := [];
     stats_ := Statistics.zero; timestamp_counter_ := 0 |}.

Definition set_tlb (s : t) (tlb : TLB.t) : t :=
  mk (config_ s) (enabled_ s) tlb (stream_table_ s) (context_descriptors_ s)
     (command_queue_ s) (event_queue_ s) (stats_ s) (timestamp_counter_ s).
Definition set_stats (s : t) (st : Statistics.t) : t :=
  mk (config_ s) (enabled_ s) (tlb_ s) (stream_table_ s) (context_descriptors_ s)
     (command_queue_ s) (event_queue_ s) st (timestamp_counter_ s).
Definition set_command_queue (s : t) (q : list Command) : t :=
  mk (config_ s) (enabled_ s) (tlb_ s) (stream_table_ s) (context_descriptors_ s)
     q (event_queue_ s) (stats_ s) (timestamp_counter_ s).
Definition set_event_queue (s : t) (q : list Event.t) : t :=
  mk (config_ s) (enabled_ s) (tlb_ s) (stream_table_ s) (context_descriptors_ s)
     (command_queue_ s) q (stats_ s) (timestamp_counter_ s).
Definition set_enabled (s : t) (b : bool) : t :=
  mk (config_ s) b (tlb_ s) (stream_table_ s) (context_descriptors_ s)
     (command_queue_ s) (event_queue_ s) (stats_ s) (timestamp_counter_ s).

Definition configure_stream_table_entry (s : t) (stream_id : StreamID)
    (ste : StreamTableEntry.t) : t :=
  mk (config_ s) (enabled_ s) (tlb_ s) (<[stream_id := ste]> (stream_table_ s))
     (context_descriptors_ s) (command_queue_ s) (event_queue_ s) (stats_ s)
     (timestamp_counter_ s).

Definition get_stream_table_entry (s : t) (stream_id : StreamID) : StreamTableEntry.t :=
  match stream_table_ s !! stream_id with
  | Some ste => ste
  | None => StreamTableEntry.default
  end.

(** [(static_cast<uint64_t>(stream_id) << 16) | asid] *)
Definition make_cd_key (stream_id : StreamID) (asid : ASID) : Z :=
  Z.lor (u64 (Z.shiftl stream_id 16)) asid.

Definition configure_context_descriptor (s : t) (stream_id : StreamID) (asid : ASID)
    (cd : ContextDescriptor.t) : t :=
  let key := make_cd_key stream_id asid in
  mk (config_ s) (enabled_ s) (tlb_ s) (stream_table_ s)
     (<[key := cd]> (context_descriptors_ s)) (command_queue_ s) (event_queue_ s)
     (stats_ s) (timestamp_counter_ s).

Definition get_context_descriptor (s : t) (stream_id : StreamID) (asid : ASID)
    : ContextDescriptor.t :=
  let key := make_cd_key stream_id asid in
  match context_descriptors_ s !! key with
  | Some cd => cd
  | None => ContextDescriptor.default
  end.

Definition generate_event (s : t) (fault_type : FaultType) (stream_id : StreamID)
    (asid : ASID) (vmid : VMID) (va : VirtualAddress) (description : string) : t :=
  if Z.of_nat (length (event_queue_ s)) <? SMMUConfig.event_queue_size (config_ s) then
    let event := {| Event.fault_type := fault_type; Event.stream_id := stream_id;
                    Event.asid := asid; Event.vmid := vmid; Event.va := va;
                    Event.description := description;
                    Event.timestamp := timestamp_counter_ s |} in
    mk (config_ s) (enabled_ s) (tlb_ s) (stream_table_ s) (context_descriptors_ s)
       (command_queue_ s) (event_queue_ s ++ [event])
       (Statistics.inc_events_generated (stats_ s))
       (u64 (timestamp_counter_ s + 1))
  else s.

Definition has_events (s : t) : bool :=
  match event_queue_ s with
  | [] => false
  | _ :: _ => true
  end.

Definition pop_event (s : t) : t * Event.t :=
  match event_queue_ s with
  | event :: rest => (set_event_queue s rest, event)
  | [] => (s, Event.default)
  end.

Definition invalidate_tlb_all (s : t) : t := set_tlb s (TLB.invalidate_all (tlb_ s)).
Definition invalidate_tlb_by_asid (s : t) (asid : ASID) : t :=
  set_tlb s (TLB.invalidate_by_asid (tlb_ s) asid).
Definition invalidate_tlb_by_vmid (s : t) (vmid : VMID) : t :=
  set_tlb s (TLB.invalidate_by_vmid (tlb_ s) vmid).
Definition invalidate_tlb_by_va (s : t) (va : VirtualAddress) (asid : ASID) : t :=
  set_tlb s (TLB.invalidate_by_va (tlb_ s) va asid).
Definition invalidate_tlb_by_stream (s : t) (stream_id : StreamID) : t :=
  set_tlb s (TLB.invalidate_by_stream (tlb_ s) stream_id).

Definition reset_statistics (s : t) : t := set_stats s Statistics.zero.
Definition enable (s : t) : t := set_enabled s true.
Definition disable (s : t) : t := set_enabled s false.
Definition is_enabled (s : t) : bool := enabled_ s.

Definition submit_command (s : t) (cmd : Command) : t :=
  if Z.of_nat (length (command_queue_ s)) <? SMMUConfig.command_queue_size (config_ s)
  then set_command_queue s (command_queue_ s ++ [cmd])
  else s.

Definition process_command (s : t) (cmd : Command) : t :=
  let s' :=
    match cmd with
    | CMD_SYNC => s
    | CMD_CFGI_STE stream_id => invalidate_tlb_by_stream s stream_id
    | CMD_CFGI_CD _ asid => invalidate_tlb_by_asid s asid
    | CMD_CFGI_ALL => invalidate_tlb_all s
    | CMD_TLBI_NH_ALL => invalidate_tlb_all s
    | CMD_TLBI_NH_ASID asid => invalidate_tlb_by_asid s asid
    | CMD_TLBI_NH_VA va asid => invalidate_tlb_by_va s va asid
    | CMD_TLBI_S12_VMALL vmid => invalidate_tlb_by_vmid s vmid
    | CMD_PREFETCH_CONFIG | CMD_PREFETCH_ADDR => s
    end in
  set_stats s' (Statistics.inc_commands_processed (stats_ s')).

(** The [while (!command_queue_.empty())] loop: [pending] is the content
    of the queue, front first; each turn pops the front and processes it. *)
Fixpoint process_loop (pending : list Command) (s : t) : t :=
  match pending with
  | [] => s
  | cmd :: rest => process_loop rest (process_command (set_command_queue s rest) cmd)
  end.

Definition process_commands (s : t) : t := process_loop (command_queue_ s) s.

Section Translate.

(** The read callback of [page_table_walker_]. *)
Variable memory_read_ : PhysicalAddress -> option Z.

Definition translate_stage1 (s : t) (va : VirtualAddress) (ste : StreamTableEntry.t)
    (cd : ContextDescriptor.t) : t * TranslationResult :=
  if negb (ContextDescriptor.valid cd) then
    let result := fault "Invalid context descriptor" in
    let s1 := generate_event s TRANSLATION_FAULT 0 (ContextDescriptor.asid cd)
                             (StreamTableEntry.vmid ste) va (fault_reason result) in
    (set_stats s1 (Statistics.inc_translation_faults (stats_ s1)), result)
  else
    let result := PageTableWalker.translate memory_read_ va
                    (ContextDescriptor.translation_table_base cd)
                    (ContextDescriptor.translation_granule cd)
                    (ContextDescriptor.ips cd) STAGE1 in
    let s1 := set_stats s (Statistics.inc_page_table_walks (stats_ s)) in
    if negb (success result) then
      let s2 := generate_event s1 TRANSLATION_FAULT 0 (ContextDescriptor.asid cd)
                               (StreamTableEntry.vmid ste) va (fault_reason result) in
      (set_stats s2 (Statistics.inc_translation_faults (stats_ s2)), result)
    else (s1, result).

Definition translate_stage2 (s : t) (ipa : PhysicalAddress) (ste : StreamTableEntry.t)
    : t * TranslationResult :=
  if negb (StreamTableEntry.s2_enabled ste) then
    (s, {| success := true; physical_addr := ipa; memory_type := NORMAL_WB;
           permission := AP_NONE; cacheable := true; shareable := false;
           fault_reason := "" |})
  else
    let result := PageTableWalker.translate memory_read_ ipa
                    (StreamTableEntry.s2_translation_table_base ste)
                    (StreamTableEntry.s2_granule ste) 48 STAGE2 in
    let s1 := set_stats s (Statistics.inc_page_table_walks (stats_ s)) in
    if negb (success result) then
      let s2 := generate_event s1 TRANSLATION_FAULT 0 0 (StreamTableEntry.vmid ste)
                               ipa (fault_reason result) in
      (set_stats s2 (Statistics.inc_translation_faults (stats_ s2)), result)
    else (s1, result).

(** Step 4 of [translate] : fill the TLB after a successful walk. *)
Definition fill_tlb (s : t) (va : VirtualAddress) (stream_id : StreamID) (asid : ASID)
    (vmid : VMID) (ste : StreamTableEntry.t) (result : TranslationResult)
    : t * TranslationResult :=
  if success result then
    let entry := {| TLBEntry.va := va;
                    TLBEntry.pa := physical_addr result;
                    TLBEntry.stream_id := stream_id;
                    TLBEntry.asid := asid;
                    TLBEntry.vmid := vmid;
                    TLBEntry.page_size := SIZE_4KB;
                    TLBEntry.memory_type := memory_type result;
                    TLBEntry.permission := permission result;
                    TLBEntry.cacheable := cacheable result;
                    TLBEntry.shareable := shareable result;
                    TLBEntry.stage := if StreamTableEntry.s1_enabled ste
                                      then STAGE1 else STAGE2;
                    TLBEntry.timestamp := 0 |} in
    (set_tlb s (TLB.insert (tlb_ s) entry), result)
  else (s, result).

Definition translate (s : t) (va : VirtualAddress) (stream_id : StreamID)
    (asid : ASID) (vmid : VMID) : t * TranslationResult :=
  let s0 := set_stats s (Statistics.inc_total_translations (stats_ s)) in
  if negb (enabled_ s0) then (s0, fault "SMMU is disabled")
  else
    let '(tlb', tlb_entry) := TLB.lookup (tlb_ s0) va stream_id asid vmid in
    let s1 := set_tlb s0 tlb' in
    match tlb_entry with
    | Some e =>
      (set_stats s1 (Statistics.inc_tlb_hits (stats_ s1)),
       {| success := true;
          physical_addr := TLBEntry.pa e;
          memory_type := TLBEntry.memory_type e;
          permission := TLBEntry.permission e;
          cacheable := TLBEntry.cacheable e;
          shareable := TLBEntry.shareable e;
          fault_reason := "" |})
    | None =>
      let s2 := set_stats s1 (Statistics.inc_tlb_misses (stats_ s1)) in
      let ste := get_stream_table_entry s2 stream_id in
      if negb (StreamTableEntry.valid ste) then
        let result := fault "Invalid stream table entry" in
        let s3 := generate_event s2 TRANSLATION_FAULT stream_id asid vmid va
                                 (fault_reason result) in
        (set_stats s3 (Statistics.inc_translation_faults (stats_ s3)), result)
      else if StreamTableEntry.s1_enabled ste then
        let cd := get_context_descriptor s2 stream_id asid in
        let '(s3, result) := translate_stage1 s2 va ste cd in
        if negb (success result) then (s3, result)
        else if StreamTableEntry.s2_enabled ste then
          let ipa := physical_addr result in
          let '(s4, result2) := translate_stage2 s3 ipa ste in
          fill_tlb s4 va stream_id asid vmid ste result2
        else fill_tlb s3 va stream_id asid vmid ste result
      else if StreamTableEntry.s2_enabled ste then
        let '(s3, result) := translate_stage2 s2 va ste in
        fill_tlb s3 va stream_id asid vmid ste result
      else
        let result := fault "No translation stages enabled" in
        let s3 := generate_event s2 TRANSLATION_FAULT stream_id asid vmid va
                                 (fault_reason result) in
        (set_stats s3 (Statistics.inc_translation_faults (stats_ s3)), result)
    end.

End Translate.

End SMMU.

(** ** Vocabulary of the specification *)

(** The page-size table as the specification words it (section 4.2), to
    be compared with [PageTableWalker.get_page_size]: the size in bytes of
    the region a leaf at [level] maps under [granule]; the table has no
    entry for level 0 of the 64 KiB granule. *)
Definition spec_page_size (granule level : Z) : option Z :=
  let KiB := 1024 in
  let MiB := 1024 * 1024 in
  let GiB := 1024 * 1024 * 1024 in
  if granule =? 12 then
    if level =? 0 then Some (512 * MiB)
    else if level =? 1 then Some (2 * MiB)
    else if (level =? 2) || (level =? 3) then Some (4 * KiB)
    else None
  else if granule =? 14 then
    if level =? 0 then Some (1 * GiB)
    else if level =? 1 then Some (32 * MiB)
    else if (level =? 2) || (level =? 3) then Some (16 * KiB)
    else None
  else if granule =? 16 then
    if level =? 1 then Some (512 * MiB)
    else if (level =? 2) || (level =? 3) then Some (64 * KiB)
    else None
  else None.

(** The level the walk of [PageTableWalker.translate] starts at. *)
Definition start_level (granule : Z) : Z := if granule =? 16 then 1 else 0.

(** [reaches_leaf mem va g table_base level L d] : the descent of
    [walk_table] that is at [level] with table [table_base] follows valid
    table descriptors down to level [L], where the descriptor it reads
    parses to the valid non-table descriptor [d]. *)
Inductive reaches_leaf (memory_read_ : PhysicalAddress -> option Z) (va g : Z)
    : Z -> Z -> Z -> PageTableDescriptor.t -> Prop :=
| reaches_here table_base level desc_value :
    memory_read_ (PageTableWalker.get_descriptor_address table_base
                    (PageTableWalker.get_index_bits va level g) g) = Some desc_value ->
    PageTableDescriptor.valid (PageTableWalker.parse_descriptor desc_value level g) = true ->
    PageTableDescriptor.is_table (PageTableWalker.parse_descriptor desc_value level g) = false ->
    reaches_leaf memory_read_ va g table_base level level
                 (PageTableWalker.parse_descriptor desc_value level g)
| reaches_down table_base level desc_value L d :
    memory_read_ (PageTableWalker.get_descriptor_address table_base
                    (PageTableWalker.get_index_bits va level g) g) = Some desc_value ->
    PageTableDescriptor.valid (PageTableWalker.parse_descriptor desc_value level g) = true ->
    PageTableDescriptor.is_table (PageTableWalker.parse_descriptor desc_value level g) = true ->
    reaches_leaf memory_read_ va g
                 (PageTableDescriptor.address
                    (PageTableWalker.parse_descriptor desc_value level g))
                 (level + 1) L d ->
    reaches_leaf memory_read_ va g table_base level L d.

(** The result [walk_table] builds from a leaf descriptor [d] of a region
    of [page_bytes] bytes. *)
Definition leaf_result (va page_bytes : Z) (d : PageTableDescriptor.t) : TranslationResult :=
  {| success := true;
     physical_addr := PageTableDescriptor.address d + Z.land va (page_bytes - 1);
     memory_type := PageTableDescriptor.mem_attr d;
     permission := PageTableDescriptor.ap d;
     cacheable := match PageTableDescriptor.mem_attr d with
                  | NORMAL_WT | NORMAL_WB => true
                  | _ => false
                  end;
     shareable := PageTableDescriptor.shareable d;
     fault_reason := "" |}.

(** The operations of the cache, as data, and their execution in order. *)
Inductive tlb_op : Type :=
| OpLookup (va : VirtualAddress) (stream_id : StreamID) (asid : ASID) (vmid : VMID)
| OpInsert (entry : TLBEntry.t)
| OpInvalidateAll
| OpInvalidateByAsid (asid : ASID)
| OpInvalidateByVmid (vmid : VMID)
| OpInvalidateByVa (va : VirtualAddress) (asid : ASID)
| OpInvalidateByStream (stream_id : StreamID).

Definition tlb_step (tlb : TLB.t) (op : tlb_op) : TLB.t :=
  match op with
  | OpLookup va stream_id asid vmid => fst (TLB.lookup tlb va stream_id asid vmid)
  | OpInsert entry => TLB.insert tlb entry
  | OpInvalidateAll => TLB.invalidate_all tlb
  | OpInvalidateByAsid asid => TLB.invalidate_by_asid tlb asid
  | OpInvalidateByVmid vmid => TLB.invalidate_by_vmid tlb vmid
  | OpInvalidateByVa va asid => TLB.invalidate_by_va tlb va asid
  | OpInvalidateByStream stream_id => TLB.invalidate_by_stream tlb stream_id
  end.

Definition tlb_run (tlb : TLB.t) (ops : list tlb_op) : TLB.t := foldl tlb_step tlb ops.

(** The key [TLB.insert] files an entry under. *)
Definition entry_key (e : TLBEntry.t) : TLBKey :=
  TLB.make_key (TLBEntry.va e) (TLBEntry.page_size e) (TLBEntry.stream_id e)
               (TLBEntry.asid e) (TLBEntry.vmid e).

(** The list and the map of a cache describe the same set of keys. *)
Definition tlb_consistent (tlb : TLB.t) : Prop :=
  NoDup (TLB.lru_list_ tlb) ∧
  ∀ k, k ∈ TLB.lru_list_ tlb ↔ is_Some (TLB.entries_ tlb !! k).

(** [fault_recorded q cap eg tf reason s'] : relative to an event queue
    [q] bounded by [cap] and to the counters [eg] (events generated) and
    [tf] (translation faults), the state [s'] has one more translation
    fault and one more Translation event with description [reason], the
    event being dropped when [q] was full. *)
Definition fault_recorded (q : list Event.t) (cap eg tf : Z) (reason : string)
    (s' : SMMU.t) : Prop :=
  Statistics.translation_faults (SMMU.stats_ s') = u64 (tf + 1) ∧
  (Z.of_nat (length q) < cap ->
   ∃ ev, SMMU.event_queue_ s' = q ++ [ev] ∧
         Event.fault_type ev = TRANSLATION_FAULT ∧
         Event.description ev = reason ∧
         Statistics.events_generated (SMMU.stats_ s') = u64 (eg + 1)) ∧
  (cap <= Z.of_nat (length q) ->
   SMMU.event_queue_ s' = q ∧
   Statistics.events_generated (SMMU.stats_ s') = eg).

(** Every entry of the map sits under the key [TLB.insert] computes for
    it. *)
Definition tlb_keyed (tlb : TLB.t) : Prop :=
  ∀ k e, TLB.entries_ tlb !! k = Some e -> k = entry_key e.

(** The public operations of the orchestrator, as data.  A translation
    carries the read callback of the walker at the time of the call, since
    the memory behind it is shared with the rest of the system. *)
Inductive smmu_op : Type :=
| OpTranslate (memory_read_ : PhysicalAddress -> option Z)
              (va : VirtualAddress) (stream_id : StreamID) (asid : ASID) (vmid : VMID)
| OpConfigureStream (stream_id : StreamID) (ste : StreamTableEntry.t)
| OpConfigureContext (stream_id : StreamID) (asid : ASID) (cd : ContextDescriptor.t)
| OpSubmit (cmd : Command)
| OpProcessCommands
| OpPopEvent
| OpInvalidateTlbAll
| OpInvalidateTlbByAsid (asid : ASID)
| OpInvalidateTlbByVmid (vmid : VMID)
| OpInvalidateTlbByVa (va : VirtualAddress) (asid : ASID)
| OpInvalidateTlbByStream (stream_id : StreamID)
| OpResetStatistics
| OpEnable
| OpDisable.

Definition smmu_step (s : SMMU.t) (op : smmu_op) : SMMU.t :=
  match op with
  | OpTranslate mem va stream_id asid vmid => fst (SMMU.translate mem s va stream_id asid vmid)
  | OpConfigureStream stream_id ste => SMMU.configure_stream_table_entry s stream_id ste
  | OpConfigureContext stream_id asid cd =>
    SMMU.configure_context_descriptor s stream_id asid cd
  | OpSubmit cmd => SMMU.submit_command s cmd
  | OpProcessCommands => SMMU.process_commands s
  | OpPopEvent => fst (SMMU.pop_event s)
  | OpInvalidateTlbAll => SMMU.invalidate_tlb_all s
  | OpInvalidateTlbByAsid asid => SMMU.invalidate_tlb_by_asid s asid
  | OpInvalidateTlbByVmid vmid => SMMU.invalidate_tlb_by_vmid s vmid
  | OpInvalidateTlbByVa va asid => SMMU.invalidate_tlb_by_va s va asid
  | OpInvalidateTlbByStream stream_id => SMMU.invalidate_tlb_by_stream s stream_id
  | OpResetStatistics => SMMU.reset_statistics s
  | OpEnable => SMMU.enable s
  | OpDisable => SMMU.disable s
  end.

Definition smmu_run (s : SMMU.t) (ops : list smmu_op) : SMMU.t := foldl smmu_step s ops.

(** The states [translate] passes through, named.  [record_fault] is the
    pair of statements every failing path ends with (one [generate_event],
    one [translation_faults++]); [miss_state] is the state after a cache
    miss and [walks] completed page-table walks. *)
Definition record_fault (s : SMMU.t) (stream_id : StreamID) (asid : ASID) (vmid : VMID)
    (va : VirtualAddress) (reason : string) : SMMU.t :=
  let s1 := SMMU.generate_event s TRANSLATION_FAULT stream_id asid vmid va reason in
  SMMU.set_stats s1 (Statistics.inc_translation_faults (SMMU.stats_ s1)).

Definition count_walk (s : SMMU.t) : SMMU.t :=
  SMMU.set_stats s (Statistics.inc_page_table_walks (SMMU.stats_ s)).

Definition miss_state (s : SMMU.t) (tlb' : TLB.t) (walks : nat) : SMMU.t :=
  Nat.iter walks count_walk
    (SMMU.set_stats
       (SMMU.set_tlb (SMMU.set_stats s (Statistics.inc_total_translations (SMMU.stats_ s)))
                     tlb')
       (Statistics.inc_tlb_misses (Statistics.inc_total_translations (SMMU.stats_ s)))).

(** The result [translate] builds from a cache entry. *)
Definition cached_result (e : TLBEntry.t) : TranslationResult :=
  {| success := true; physical_addr := TLBEntry.pa e;
     memory_type := TLBEntry.memory_type e; permission := TLBEntry.permission e;
     cacheable := TLBEntry.cacheable e; shareable := TLBEntry.shareable e;
     fault_reason := "" |}.

(** The entry [translate] builds from a request and a result. *)
Definition filled_entry (va : VirtualAddress) (stream_id : StreamID) (asid : ASID)
    (vmid : VMID) (stage : TranslationStage) (r : TranslationResult) : TLBEntry.t :=
  {| TLBEntry.va := va; TLBEntry.pa := physical_addr r; TLBEntry.stream_id := stream_id;
     TLBEntry.asid := asid; TLBEntry.vmid := vmid; TLBEntry.page_size := SIZE_4KB;
     TLBEntry.memory_type := memory_type r; TLBEntry.permission := permission r;
     TLBEntry.cacheable := cacheable r; TLBEntry.shareable := shareable r;
     TLBEntry.stage := stage; TLBEntry.timestamp := 0 |}.

(** The ways a call of [translate] can go, with the state and the result
    each one produces. *)
Inductive translate_outcome (s : SMMU.t) (va : VirtualAddress) (stream_id : StreamID)
    (asid : ASID) (vmid : VMID) : SMMU.t -> TranslationResult -> Prop :=
| outcome_disabled :
    SMMU.enabled_ s = false ->
    translate_outcome s va stream_id asid vmid
      (SMMU.set_stats s (Statistics.inc_total_translations (SMMU.stats_ s)))
      (fault "SMMU is disabled")
| outcome_hit tlb' e :
    SMMU.enabled_ s = true ->
    TLB.lookup (SMMU.tlb_ s) va stream_id asid vmid = (tlb', Some e) ->
    translate_outcome s va stream_id asid vmid
      (SMMU.set_stats
         (SMMU.set_tlb (SMMU.set_stats s (Statistics.inc_total_translations (SMMU.stats_ s)))
                       tlb')
         (Statistics.inc_tlb_hits (Statistics.inc_total_translations (SMMU.stats_ s))))
      (cached_result e)
| outcome_fault tlb' walks sid0 asid0 vmid0 va0 r :
    SMMU.enabled_ s = true ->
    TLB.lookup (SMMU.tlb_ s) va stream_id asid vmid = (tlb', None) ->
    (walks <= 2)%nat ->
    success r = false ->
    translate_outcome s va stream_id asid vmid
      (record_fault (miss_state s tlb' walks) sid0 asid0 vmid0 va0 (fault_reason r)) r
| outcome_filled tlb' walks stage r :
    SMMU.enabled_ s = true ->
    TLB.lookup (SMMU.tlb_ s) va stream_id asid vmid = (tlb', None) ->
    (1 <= walks <= 2)%nat ->
    success r = true ->
    fault_reason r = "" ->
    translate_outcome s va stream_id asid vmid
      (SMMU.set_tlb (miss_state s tlb' walks)
         (TLB.insert tlb' (filled_entry va stream_id asid vmid stage r)))
      r.

(** ** Scenarios

    Concrete memories and units, built through the public interface, on
    which the statements below are exercised. *)

(** Four levels of tables for the 4 KiB granule rooted at 0x1000; the
    level-3 entry of index 1 maps the page at 0x1000 to 0x101000
    (Normal-WriteBack, access flag set). *)
Definition mem_pages : SimpleMemoryModel.t :=
  let m := SimpleMemoryModel.init in
  let m := SimpleMemoryModel.write_pte m 0x1000 0x2003 in
  let m := SimpleMemoryModel.write_pte m 0x2000 0x3003 in
  let m := SimpleMemoryModel.write_pte m 0x3000 0x4003 in
  SimpleMemoryModel.write_pte m 0x4008 0x101413.

(** A level-0 table at 0x1000 whose entry 0 points to a level-1 table at
    0x2000, whose entry 0 is a block descriptor (bit 1 clear) with output
    address 0x40000000. *)
Definition mem_block : SimpleMemoryModel.t :=
  let m := SimpleMemoryModel.init in
  let m := SimpleMemoryModel.write_pte m 0x1000 0x2003 in
  SimpleMemoryModel.write_pte m 0x2000 0x40000411.

Definition ste_stage1 : StreamTableEntry.t :=
  {| StreamTableEntry.valid := true; StreamTableEntry.s1_enabled := true;
     StreamTableEntry.s2_enabled := false; StreamTableEntry.s1_context_ptr := 0;
     StreamTableEntry.s2_translation_table_base := 0; StreamTableEntry.vmid := 0;
     StreamTableEntry.s1_format := 0; StreamTableEntry.s2_granule := 0 |}.

Definition cd_4k : ContextDescriptor.t :=
  {| ContextDescriptor.valid := true; ContextDescriptor.translation_table_base := 0x1000;
     ContextDescriptor.asid := 1; ContextDescriptor.translation_granule := 12;
     ContextDescriptor.ips := 48; ContextDescriptor.tg := 0; ContextDescriptor.sh := 0;
     ContextDescriptor.orgn := 0; ContextDescriptor.irgn := 0 |}.

(** Stream 0 with stage 1 enabled, context (0, 1) on the tables at 0x1000,
    unit enabled. *)
Definition smmu_ready : SMMU.t :=
  SMMU.enable
    (SMMU.configure_context_descriptor
       (SMMU.configure_stream_table_entry (SMMU.create SMMUConfig.default) 0 ste_stage1)
       0 1 cd_4k).

(** The ready unit with one command already waiting in its queue. *)
Definition smmu_pending : SMMU.t := SMMU.submit_command smmu_ready CMD_SYNC.

(** A cache entry for a 4 KiB page of stream 0, identity-mapped. *)
Definition sample_entry (va : VirtualAddress) (asid : ASID) (page_size : PageSize)
    : TLBEntry.t :=
  {| TLBEntry.va := va; TLBEntry.pa := va; TLBEntry.stream_id := 0;
     TLBEntry.asid := asid; TLBEntry.vmid := 0; TLBEntry.page_size := page_size;
     TLBEntry.memory_type := NORMAL_WB; TLBEntry.permission := READ_WRITE;
     TLBEntry.cacheable := true; TLBEntry.shareable := false;
     TLBEntry.stage := STAGE1; TLBEntry.timestamp := 0 |}.

(** Two address spaces filled, one page looked up. *)
Definition sample_ops : list tlb_op :=
  [OpInsert (sample_entry 0x1000 1 SIZE_4KB); OpInsert (sample_entry 0x2000 2 SIZE_4KB);
   OpLookup 0x1000 0 1 0].

(** [mem_pages] after one more descriptor has been written at 0x9000, an
    address the walk of 0x1000 does not read. *)
Definition mem_pages_more : SimpleMemoryModel.t :=
  SimpleMemoryModel.write_pte mem_pages 0x9000 0x5003.

(** * Properties *)

(** ** Bit-level facts *)

Lemma land_1_testbit (d n : Z) :
  0 <= n -> Z.land (Z.shiftr d n) 1 = Z.b2z (Z.testbit d n).
Proof.
  intros Hn. change 1 with (Z.ones 1) at 1.
  rewrite Z.land_ones by lia. rewrite Z.shiftr_div_pow2 by lia.
  rewrite Z.testbit_spec' by lia. reflexivity.
Qed.

Lemma land_1_bit0 (d : Z) : Z.land d 1 = Z.b2z (Z.testbit d 0).
Proof. rewrite <- (land_1_testbit d 0) by lia. rewrite Z.shiftr_0_r. reflexivity. Qed.

Lemma land_below_pow2 (a m n : Z) :
  0 <= n -> 0 <= m < 2 ^ n -> 0 <= Z.land a m < 2 ^ n.
Proof.
  intros Hn Hm.
  assert (Hmm : Z.land m (Z.ones n) = m).
  { rewrite Z.land_ones by lia. apply Z.mod_small. lia. }
  rewrite <- Hmm, Z.land_assoc, Z.land_ones by lia.
  apply Z.mod_pos_bound. lia.
Qed.

Lemma parse_descriptor_address_bound (desc level g : Z) :
  0 <= PageTableDescriptor.address (PageTableWalker.parse_descriptor desc level g) < 2 ^ 48.
Proof.
  unfold PageTableWalker.parse_descriptor.
  destruct (Z.land desc 1 =? 0); simpl; [lia|].
  apply land_below_pow2; lia.
Qed.

Lemma page_offset_ones (va : Z) (p : PageSize) :
  ∃ n, 12 <= n <= 30 ∧ page_size_value p = 2 ^ n ∧
       Z.land va (u64 (page_size_value p - 1)) = va mod 2 ^ n.
Proof.
  destruct p;
    [exists 12 | exists 14 | exists 16 | exists 21 | exists 25 | exists 29 | exists 30];
    (split; [lia|split; [reflexivity|]]);
    match goal with
    | |- _ = _ mod 2 ^ ?n => rewrite <- (Z.land_ones va n) by lia; reflexivity
    end.
Qed.

(** ** The descriptor parser *)

Lemma parse_descriptor_valid (desc level g : Z) :
  PageTableDescriptor.valid (PageTableWalker.parse_descriptor desc level g)
  = Z.testbit desc 0.
Proof.
  unfold PageTableWalker.parse_descriptor. rewrite land_1_bit0.
  destruct (Z.testbit desc 0); reflexivity.
Qed.

(** C5.  A descriptor word whose bit 0 is set parses to a valid
    descriptor; at levels 0, 1 and 2 it is a table descriptor exactly when
    bit 1 is set, and at level 3 it is never a table descriptor, whatever
    bit 1 is. *)
Theorem parse_descriptor_type (desc level g : Z) :
  Z.testbit desc 0 = true ->
  PageTableDescriptor.valid (PageTableWalker.parse_descriptor desc level g) = true ∧
  (0 <= level <= 2 ->
   PageTableDescriptor.is_table (PageTableWalker.parse_descriptor desc level g)
   = Z.testbit desc 1) ∧
  (level = 3 ->
   PageTableDescriptor.is_table (PageTableWalker.parse_descriptor desc level g) = false).
Proof.
  intros Hv. split; [by rewrite parse_descriptor_valid|].
  unfold PageTableWalker.parse_descriptor.
  rewrite land_1_bit0, Hv. change (Z.b2z true =? 0) with false.
  cbn [PageTableDescriptor.is_table].
  split.
  - intros Hl. destruct (Z.ltb_spec level 3) as [_|?]; [|lia].
    rewrite land_1_testbit by lia. by destruct (Z.testbit desc 1).
  - intros ->. reflexivity.
Qed.

Lemma parse_descriptor_type_witness :
  Z.testbit 0x101411 0 = true ∧
  PageTableDescriptor.valid (PageTableWalker.parse_descriptor 0x101411 3 12) = true ∧
  (0 <= 3 <= 2 ->
   PageTableDescriptor.is_table (PageTableWalker.parse_descriptor 0x101411 3 12)
   = Z.testbit 0x101411 1) ∧
  (3 = 3 ->
   PageTableDescriptor.is_table (PageTableWalker.parse_descriptor 0x101411 3 12) = false).
Proof.
  split; [reflexivity|]. apply (parse_descriptor_type 0x101411 3 12). reflexivity.
Defined.

(** The corner the specification singles out: a level-3 word with bit 1
    clear is a leaf, and the same word with bit 1 set is a table below
    level 3 only. *)
Example parse_descriptor_level3_corner :
  PageTableDescriptor.is_table (PageTableWalker.parse_descriptor 0x101411 3 12) = false ∧
  PageTableDescriptor.is_table (PageTableWalker.parse_descriptor 0x101413 3 12) = false ∧
  PageTableDescriptor.is_table (PageTableWalker.parse_descriptor 0x101413 2 12) = true ∧
  PageTableDescriptor.is_table (PageTableWalker.parse_descriptor 0x101411 2 12) = false.
Proof. repeat split. Qed.

(** ** The page-table walker *)

(** The code's size table agrees with the specification's wherever the
    latter has an entry. *)
Lemma get_page_size_spec (g level ps : Z) :
  spec_page_size g level = Some ps ->
  page_size_value (PageTableWalker.get_page_size level g) = ps.
Proof.
  unfold spec_page_size, PageTableWalker.get_page_size.
  repeat match goal with
         | |- context [?a =? ?b] => destruct (Z.eqb_spec a b); subst; simpl
         end; intros [= <-]; try reflexivity; try lia.
Qed.

Lemma reaches_leaf_level mem va g tb level L d :
  reaches_leaf mem va g tb level L d -> level <= L ∧ (level <= 3 -> L <= 3).
Proof.
  induction 1 as [| tb level dv L d Hread Hvalid Htable Hrest IH]; [lia|].
  split; [lia|]. intros Hle.
  assert (level < 3).
  { revert Htable. unfold PageTableWalker.parse_descriptor.
    destruct (Z.land dv 1 =? 0); simpl; [done|].
    destruct (Z.ltb_spec level 3); [lia|done]. }
  lia.
Qed.

Lemma walk_loop_leaf mem ctx tb level L d :
  reaches_leaf mem (PageTableWalker.ctx_va ctx) (PageTableWalker.ctx_granule_size ctx)
               tb level L d ->
  ∀ remaining ps,
    L - level < Z.of_nat remaining ->
    page_size_value (PageTableWalker.get_page_size L (PageTableWalker.ctx_granule_size ctx))
    = ps ->
    fst (PageTableWalker.walk_loop mem remaining ctx tb level)
    = leaf_result (PageTableWalker.ctx_va ctx) ps d.
Proof.
  induction 1 as [tb level dv Hread Hvalid Htable
                 | tb level dv L d Hread Hvalid Htable Hrest IH];
    intros remaining ps Hrem Hps.
  - destruct remaining as [|remaining]; [lia|]. simpl.
    unfold PageTableWalker.read_descriptor. rewrite Hread, Hvalid, Htable. simpl.
    unfold leaf_result, PageTableWalker.is_cacheable. f_equal.
    destruct (page_offset_ones (PageTableWalker.ctx_va ctx)
                  (PageTableWalker.get_page_size level (PageTableWalker.ctx_granule_size ctx)))
        as (n & Hn & Hpow & Hoff).
      pose proof (parse_descriptor_address_bound dv level (PageTableWalker.ctx_granule_size ctx)).
      rewrite Hoff. rewrite <- Hps, Hpow.
      replace (2 ^ n - 1) with (Z.ones n) by (rewrite Z.ones_equiv; lia).
      rewrite Z.land_ones by lia.
      pose proof (Z.mod_pos_bound (PageTableWalker.ctx_va ctx) (2 ^ n) ltac:(lia)).
      assert (2 ^ n <= 2 ^ 30) by (apply Z.pow_le_mono_r; lia).
      unfold u64, two64. apply Z.mod_small. lia.
  - destruct remaining as [|remaining]; [apply reaches_leaf_level in Hrest; lia|].
    simpl. unfold PageTableWalker.read_descriptor. rewrite Hread, Hvalid, Htable. simpl.
    specialize (IH remaining ps ltac:(lia) Hps).
    destruct (PageTableWalker.walk_loop mem remaining ctx _ (level + 1)) as [r reads].
    exact IH.
Qed.

(** C4.  When the descent of the walker's [translate] reaches a valid
    non-table descriptor [d] at level [L], with the granule one of 12, 14
    and 16, the result is a success whose physical address is the
    descriptor's output address plus the offset of [va] in a region of the
    size the specification's table gives for ([g], [L]); permission,
    memory type and shareability are the leaf's, and the result is
    cacheable exactly for Normal-WriteThrough and Normal-WriteBack. *)
Theorem walker_translate_leaf mem va ttb g ips stage L d :
  g = 12 ∨ g = 14 ∨ g = 16 ->
  reaches_leaf mem va g ttb (start_level g) L d ->
  ∃ ps, spec_page_size g L = Some ps ∧
    let r := PageTableWalker.translate mem va ttb g ips stage in
    success r = true ∧
    physical_addr r = PageTableDescriptor.address d + Z.land va (ps - 1) ∧
    permission r = PageTableDescriptor.ap d ∧
    memory_type r = PageTableDescriptor.mem_attr d ∧
    shareable r = PageTableDescriptor.shareable d ∧
    (cacheable r = true ↔
     PageTableDescriptor.mem_attr d = NORMAL_WT ∨ PageTableDescriptor.mem_attr d = NORMAL_WB).
Proof.
  intros Hg Hreach.
  assert (Hstart : 0 <= start_level g <= 3)
    by (unfold start_level; destruct (g =? 16); lia).
  destruct (reaches_leaf_level _ _ _ _ _ _ _ Hreach) as [HL1 HL2].
  specialize (HL2 ltac:(lia)).
  assert (Hps : ∃ ps, spec_page_size g L = Some ps).
  { unfold spec_page_size. unfold start_level in *.
    destruct Hg as [-> | [-> | ->]]; simpl in *;
      assert (HLc : L = 0 ∨ L = 1 ∨ L = 2 ∨ L = 3) by lia;
      destruct HLc as [-> | [-> | [-> | ->]]]; simpl; eauto; lia. }
  destruct Hps as [ps Hps]. exists ps. split; [exact Hps|].
  assert (Hres : PageTableWalker.translate mem va ttb g ips stage = leaf_result va ps d).
  { apply get_page_size_spec in Hps.
    unfold PageTableWalker.translate, PageTableWalker.translate_reads,
      PageTableWalker.walk_table.
    unfold start_level in *.
    destruct Hg as [-> | [-> | ->]];
      repeat match goal with
             | |- context [?a =? ?b] =>
               let v := eval vm_compute in (a =? b) in change (a =? b) with v
             | H : context [?a =? ?b] |- _ =>
               let v := eval vm_compute in (a =? b) in change (a =? b) with v in H
             end;
      cbv iota in *;
      match goal with
      | |- fst (PageTableWalker.walk_loop _ ?n ?c _ _) = _ =>
        apply (walk_loop_leaf mem c _ _ L d); [exact Hreach | simpl; lia | exact Hps]
      end. }
  simpl. rewrite Hres. unfold leaf_result. simpl.
  repeat split; try reflexivity.
  - destruct (PageTableDescriptor.mem_attr d); intros; auto; discriminate.
  - intros [-> | ->]; reflexivity.
Qed.

Lemma walker_translate_leaf_witness :
  ∃ ps, spec_page_size 12 1 = Some ps ∧
    let d := PageTableWalker.parse_descriptor 0x40000411 1 12 in
    let r := PageTableWalker.translate (SimpleMemoryModel.memory_read mem_block)
               0x12345 0x1000 12 48 STAGE1 in
    success r = true ∧
    physical_addr r = PageTableDescriptor.address d + Z.land 0x12345 (ps - 1) ∧
    permission r = PageTableDescriptor.ap d ∧
    memory_type r = PageTableDescriptor.mem_attr d ∧
    shareable r = PageTableDescriptor.shareable d ∧
    (cacheable r = true ↔
     PageTableDescriptor.mem_attr d = NORMAL_WT ∨ PageTableDescriptor.mem_attr d = NORMAL_WB).
Proof.
  apply (walker_translate_leaf (SimpleMemoryModel.memory_read mem_block)
           0x12345 0x1000 12 48 STAGE1 1
           (PageTableWalker.parse_descriptor 0x40000411 1 12)).
  - left. reflexivity.
  - apply (reaches_down _ _ _ 0x1000 0 0x2003); [vm_compute; reflexivity ..|].
    apply (reaches_here _ _ _ 0x2000 1 0x40000411); vm_compute; reflexivity.
Defined.

(** The block of the witness above: a level-1 leaf under the 4 KiB
    granule is translated with a 2 MiB offset mask. *)
Example walker_translate_block :
  PageTableWalker.translate (SimpleMemoryModel.memory_read mem_block)
    0x12345 0x1000 12 48 STAGE1
  = {| success := true; physical_addr := 0x40012345; memory_type := NORMAL_WB;
       permission := READ_WRITE; cacheable := true; shareable := false;
       fault_reason := "" |}.
Proof. vm_compute. reflexivity. Qed.

(** C6.  With a granule other than 12, 14 and 16 the walker's [translate]
    fails with the reason "Invalid granule size", whatever the address,
    table base, address size and stage are, and hands no descriptor
    address to the memory callback. *)
Theorem walker_translate_invalid_granule mem va ttb g ips stage :
  g ≠ 12 -> g ≠ 14 -> g ≠ 16 ->
  PageTableWalker.translate_reads mem va ttb g ips stage
  = (fault "Invalid granule size", []) ∧
  success (PageTableWalker.translate mem va ttb g ips stage) = false ∧
  fault_reason (PageTableWalker.translate mem va ttb g ips stage) = "Invalid granule size".
Proof.
  intros H12 H14 H16.
  unfold PageTableWalker.translate, PageTableWalker.translate_reads.
  destruct (Z.eqb_spec g 12); [done|].
  destruct (Z.eqb_spec g 14); [done|].
  destruct (Z.eqb_spec g 16); [done|].
  repeat split.
Qed.

Lemma walker_translate_invalid_granule_witness :
  PageTableWalker.translate_reads (SimpleMemoryModel.memory_read mem_pages)
    0x1000 0x1000 13 48 STAGE1
  = (fault "Invalid granule size", []) ∧
  success (PageTableWalker.translate (SimpleMemoryModel.memory_read mem_pages)
             0x1000 0x1000 13 48 STAGE1) = false ∧
  fault_reason (PageTableWalker.translate (SimpleMemoryModel.memory_read mem_pages)
                  0x1000 0x1000 13 48 STAGE1) = "Invalid granule size".
Proof.
  apply (walker_translate_invalid_granule (SimpleMemoryModel.memory_read mem_pages)
           0x1000 0x1000 13 48 STAGE1); lia.
Defined.

(** ** The event channel *)

(** C10.  [pop_event] on a unit without pending events returns the unit
    unchanged, with its event queue still empty, and the default event:
    fault kind None, empty description, every numeric field zero. *)
Theorem pop_event_empty (s : SMMU.t) :
  SMMU.has_events s = false ->
  SMMU.pop_event s = (s, Event.default) ∧
  SMMU.event_queue_ (fst (SMMU.pop_event s)) = [] ∧
  SMMU.has_events (fst (SMMU.pop_event s)) = false ∧
  Event.fault_type (snd (SMMU.pop_event s)) = FAULT_NONE ∧
  Event.stream_id (snd (SMMU.pop_event s)) = 0 ∧
  Event.asid (snd (SMMU.pop_event s)) = 0 ∧
  Event.vmid (snd (SMMU.pop_event s)) = 0 ∧
  Event.va (snd (SMMU.pop_event s)) = 0 ∧
  Event.timestamp (snd (SMMU.pop_event s)) = 0.
Proof.
  unfold SMMU.has_events, SMMU.pop_event.
  destruct (SMMU.event_queue_ s) eqn:Hq; [|discriminate].
  intros _. simpl. rewrite Hq. repeat split.
Qed.

Lemma pop_event_empty_witness :
  SMMU.pop_event smmu_ready = (smmu_ready, Event.default).
Proof. apply (pop_event_empty smmu_ready). reflexivity. Defined.

(** ** The translation cache: list and map stay consistent *)

Lemma tlb_consistent_size (tlb : TLB.t) :
  tlb_consistent tlb -> TLB.size tlb = length (TLB.lru_list_ tlb).
Proof.
  intros [Hnd Hdom]. unfold TLB.size.
  rewrite <- (size_dom (D := gset (Z * Z * Z * Z))).
  rewrite <- (size_list_to_set (C := gset (Z * Z * Z * Z)) _ Hnd).
  f_equal. apply set_eq. intros k.
  rewrite elem_of_dom, elem_of_list_to_set. symmetry. apply Hdom.
Qed.

Lemma tlb_consistent_create (N : Z) : tlb_consistent (TLB.create N).
Proof.
  split; simpl; [constructor|]. intros k. rewrite lookup_empty.
  split; [by intros ?%elem_of_nil | by intros [? ?]].
Qed.

Lemma tlb_consistent_push (tlb : TLB.t) (key : Z * Z * Z * Z) (e : TLBEntry.t)
    (entries1 : gmap (Z * Z * Z * Z) TLBEntry.t) (lru1 : list (Z * Z * Z * Z)) :
  NoDup lru1 -> key ∉ lru1 ->
  (∀ k, k ≠ key -> (k ∈ lru1 ↔ is_Some (entries1 !! k))) ->
  tlb_consistent
    {| TLB.capacity_ := TLB.capacity_ tlb;
       TLB.timestamp_counter_ := TLB.timestamp_counter_ tlb;
       TLB.hit_count_ := TLB.hit_count_ tlb; TLB.miss_count_ := TLB.miss_count_ tlb;
       TLB.entries_ := <[key := e]> entries1; TLB.lru_list_ := key :: lru1 |}.
Proof.
  intros Hnd Hfresh Hdom. split; simpl.
  - by constructor.
  - intros k. rewrite elem_of_cons. destruct (decide (k = key)) as [->|Hne].
    + rewrite lookup_insert_eq. split; eauto.
    + rewrite lookup_insert_ne by done. rewrite <- Hdom by done.
      split; [by intros [?|?] | by right].
Qed.

Lemma list_remove_elem_of (key k : Z * Z * Z * Z) l :
  k ∈ TLB.list_remove key l ↔ k ≠ key ∧ k ∈ l.
Proof. unfold TLB.list_remove. by rewrite list_elem_of_filter. Qed.

Lemma lookup_loop_entries sizes tlb va sid asid vmid :
  TLB.entries_ (fst (TLB.lookup_loop sizes tlb va sid asid vmid)) = TLB.entries_ tlb ∧
  TLB.capacity_ (fst (TLB.lookup_loop sizes tlb va sid asid vmid)) = TLB.capacity_ tlb.
Proof.
  induction sizes as [|ps sizes IH]; simpl; [done|].
  destruct (TLB.entries_ tlb !! _); [done | exact IH].
Qed.

Lemma lookup_loop_consistent sizes tlb va sid asid vmid :
  tlb_consistent tlb ->
  tlb_consistent (fst (TLB.lookup_loop sizes tlb va sid asid vmid)).
Proof.
  intros [Hnd Hdom]. induction sizes as [|ps sizes IH]; simpl; [done|].
  destruct (TLB.entries_ tlb !! TLB.make_key va ps sid asid vmid) as [e|] eqn:He;
    [|exact IH].
  simpl. split; simpl.
  - constructor; [rewrite list_remove_elem_of; by intros [? _]|].
    by apply NoDup_filter.
  - intros k. rewrite elem_of_cons, list_remove_elem_of.
    destruct (decide (k = TLB.make_key va ps sid asid vmid)) as [->|Hne].
    + rewrite He. split; eauto.
    + rewrite <- Hdom. intuition congruence.
Qed.

Lemma evict_lru_consistent tlb :
  tlb_consistent tlb -> tlb_consistent (TLB.evict_lru tlb).
Proof.
  intros [Hnd Hdom]. unfold TLB.evict_lru.
  destruct (last (TLB.lru_list_ tlb)) as [x|] eqn:Hlast; [|done].
  apply last_Some in Hlast as [l' Hl'].
  rewrite Hl' in *. rewrite removelast_last.
  apply NoDup_app in Hnd as (Hnd' & Hdisj & _).
  split; simpl; [done|].
  intros k. destruct (decide (k = x)) as [->|Hne].
  - rewrite lookup_delete_eq. split; [|by intros [? ?]].
    intros Hin. exfalso. apply (Hdisj x Hin). by apply list_elem_of_singleton.
  - rewrite lookup_delete_ne by done. rewrite <- Hdom, elem_of_app, list_elem_of_singleton.
    intuition congruence.
Qed.

Lemma insert_consistent tlb entry :
  tlb_consistent tlb -> tlb_consistent (TLB.insert tlb entry).
Proof.
  intros Hc. unfold TLB.insert.
  set (key := TLB.make_key _ _ _ _ _).
  destruct (TLB.entries_ tlb !! key) as [e|] eqn:He.
  - destruct Hc as [Hnd Hdom]. apply (tlb_consistent_push tlb); simpl.
    + by apply NoDup_filter.
    + rewrite list_remove_elem_of. intuition congruence.
    + intros k Hne. rewrite list_remove_elem_of, <- Hdom. intuition congruence.
  - assert (Hc1 : ∃ t1, tlb_consistent t1 ∧ TLB.entries_ t1 !! key = None ∧
              (if TLB.capacity_ tlb <=? Z.of_nat (size (TLB.entries_ tlb))
               then TLB.evict_lru tlb else tlb) = t1).
    { destruct (TLB.capacity_ tlb <=? _).
      - exists (TLB.evict_lru tlb). split; [by apply evict_lru_consistent|].
        split; [|done]. unfold TLB.evict_lru.
        destruct (last _) as [x|]; [|done]. simpl.
        destruct (decide (x = key)) as [->|Hne];
          [apply lookup_delete_eq | by rewrite lookup_delete_ne].
      - by exists tlb. }
    destruct Hc1 as (t1 & [Hnd Hdom] & Hfresh & ->).
    apply (tlb_consistent_push t1); [done | |by intros k _].
    rewrite Hdom, Hfresh. by intros [? ?].
Qed.

Lemma erase_if_consistent hit tlb :
  tlb_consistent tlb -> tlb_consistent (TLB.erase_if hit tlb).
Proof.
  intros [Hnd Hdom]. unfold TLB.erase_if. split; simpl.
  - by apply NoDup_filter.
  - intros k. rewrite list_elem_of_filter, Hdom.
    split.
    + intros [Hk [e He]]. rewrite He in Hk. exists e.
      apply map_lookup_filter_Some. by split.
    + intros [e [He Hk]%map_lookup_filter_Some]. simpl in Hk.
      rewrite He. eauto.
Qed.

Lemma invalidate_by_va_consistent tlb va asid :
  tlb_consistent tlb -> tlb_consistent (TLB.invalidate_by_va tlb va asid).
Proof.
  unfold TLB.invalidate_by_va. generalize TLB.probe_sizes.
  intros sizes. revert tlb.
  induction sizes as [|ps sizes IH]; intros tlb Hc; simpl; [done|].
  apply IH. by apply erase_if_consistent.
Qed.

Create HintDb tlb_consistency.

#[local] Hint Resolve lookup_loop_consistent insert_consistent erase_if_consistent
  invalidate_by_va_consistent : tlb_consistency.

Lemma tlb_step_consistent tlb op :
  tlb_consistent tlb -> tlb_consistent (tlb_step tlb op).
Proof.
  intros Hc. destruct op; unfold tlb_step, TLB.lookup, TLB.invalidate_by_asid,
    TLB.invalidate_by_vmid, TLB.invalidate_by_stream; auto with tlb_consistency.
  apply (tlb_consistent_create (TLB.capacity_ tlb)).
Qed.

(** ** The translation cache: capacity *)

Lemma lookup_capacity tlb va sid asid vmid :
  TLB.capacity_ (fst (TLB.lookup tlb va sid asid vmid)) = TLB.capacity_ tlb.
Proof. apply lookup_loop_entries. Qed.

Lemma insert_capacity tlb entry : TLB.capacity_ (TLB.insert tlb entry) = TLB.capacity_ tlb.
Proof.
  unfold TLB.insert. simpl. destruct (TLB.entries_ tlb !! _); [done|].
  destruct (_ <=? _); [|done]. unfold TLB.evict_lru. by destruct (last _).
Qed.

Lemma invalidate_by_va_capacity tlb va asid :
  TLB.capacity_ (TLB.invalidate_by_va tlb va asid) = TLB.capacity_ tlb.
Proof.
  unfold TLB.invalidate_by_va. generalize TLB.probe_sizes. intros sizes.
  revert tlb. induction sizes as [|ps sizes IH]; intros tlb; simpl; [done|].
  by rewrite IH.
Qed.

Lemma tlb_step_capacity tlb op : TLB.capacity_ (tlb_step tlb op) = TLB.capacity_ tlb.
Proof.
  destruct op; unfold tlb_step;
    [apply lookup_capacity | apply insert_capacity | reflexivity | reflexivity
    | reflexivity | apply invalidate_by_va_capacity | reflexivity].
Qed.

Lemma erase_if_size hit tlb : (TLB.size (TLB.erase_if hit tlb) <= TLB.size tlb)%nat.
Proof. unfold TLB.size, TLB.erase_if. simpl. apply map_size_filter. Qed.

Lemma invalidate_by_va_size tlb va asid :
  (TLB.size (TLB.invalidate_by_va tlb va asid) <= TLB.size tlb)%nat.
Proof.
  unfold TLB.invalidate_by_va. generalize TLB.probe_sizes. intros sizes.
  revert tlb. induction sizes as [|ps sizes IH]; intros tlb; simpl; [done|].
  etrans; [apply IH | apply erase_if_size].
Qed.

(** An insertion into a cache of capacity at least one does not grow a
    full cache: the list is not empty, so the eviction does remove an
    entry. *)
Lemma insert_size_bound tlb entry :
  1 <= TLB.capacity_ tlb -> tlb_consistent tlb ->
  Z.of_nat (TLB.size tlb) <= TLB.capacity_ tlb ->
  Z.of_nat (TLB.size (TLB.insert tlb entry)) <= TLB.capacity_ tlb.
Proof.
  intros Hcap Hc Hsz. pose proof (tlb_consistent_size tlb Hc) as Hlen.
  unfold TLB.size in *. unfold TLB.insert.
  set (key := TLB.make_key _ _ _ _ _).
  destruct (TLB.entries_ tlb !! key) as [e|] eqn:He; simpl.
  - by rewrite map_size_insert_Some by eauto.
  - destruct (Z.leb_spec (TLB.capacity_ tlb) (Z.of_nat (size (TLB.entries_ tlb))))
      as [Hfull|Hroom].
    + unfold TLB.evict_lru.
      destruct (last (TLB.lru_list_ tlb)) as [x|] eqn:Hlast.
      * simpl. destruct Hc as [_ Hdom].
        assert (Hx : is_Some (TLB.entries_ tlb !! x)).
        { apply Hdom. apply last_Some in Hlast as [l' ->].
          apply elem_of_app. right. by apply list_elem_of_singleton. }
        destruct Hx as [ex Hx].
        assert (Hfresh : delete x (TLB.entries_ tlb) !! key = None).
        { destruct (decide (x = key)) as [->|Hne];
            [apply lookup_delete_eq | by rewrite lookup_delete_ne]. }
        rewrite map_size_insert_None by done.
        pose proof (map_size_delete_Some x (TLB.entries_ tlb) ltac:(eauto)).
        lia.
      * apply last_None in Hlast. rewrite Hlast in Hlen. simpl in Hlen. lia.
    + rewrite map_size_insert_None by done. lia.
Qed.

Lemma tlb_run_bounded (ops : list tlb_op) :
  ∀ tlb, 1 <= TLB.capacity_ tlb -> tlb_consistent tlb ->
    Z.of_nat (TLB.size tlb) <= TLB.capacity_ tlb ->
    Z.of_nat (TLB.size (tlb_run tlb ops)) <= TLB.capacity_ tlb.
Proof.
  induction ops as [|op ops IH]; intros tlb Hcap Hc Hsz; simpl; [done|].
  rewrite <- (tlb_step_capacity tlb op).
  apply IH; rewrite ?tlb_step_capacity; [done | by apply tlb_step_consistent |].
  destruct op; unfold tlb_step.
  - unfold TLB.size, TLB.lookup. by rewrite (proj1 (lookup_loop_entries _ _ _ _ _ _)).
  - by apply insert_size_bound.
  - unfold TLB.size. simpl. rewrite map_size_empty. lia.
  - pose proof (erase_if_size (λ e, TLBEntry.asid e =? asid) tlb).
    unfold TLB.invalidate_by_asid. lia.
  - pose proof (erase_if_size (λ e, TLBEntry.vmid e =? vmid) tlb).
    unfold TLB.invalidate_by_vmid. lia.
  - pose proof (invalidate_by_va_size tlb va asid). lia.
  - pose proof (erase_if_size (λ e, TLBEntry.stream_id e =? stream_id) tlb).
    unfold TLB.invalidate_by_stream. lia.
Qed.

(** The bound of claim C8 on the capacities for which the code keeps it:
    a cache created with a capacity [N] of at least one never holds more
    than [N] entries, whatever lookups, insertions and invalidations are
    run on it. *)
Theorem tlb_size_bounded (N : Z) (ops : list tlb_op) :
  1 <= N -> Z.of_nat (TLB.size (tlb_run (TLB.create N) ops)) <= N.
Proof.
  intros HN. apply (tlb_run_bounded ops (TLB.create N)); simpl.
  - done.
  - apply tlb_consistent_create.
  - unfold TLB.size. simpl. rewrite map_size_empty. lia.
Qed.

Lemma insert_lookup_key tlb entry :
  TLB.entries_ (TLB.insert tlb entry) !! entry_key entry
  = Some (TLBEntry.with_timestamp entry (TLB.timestamp_counter_ tlb)).
Proof.
  unfold TLB.insert, entry_key. simpl. rewrite lookup_insert_eq. do 2 f_equal.
  destruct (TLB.entries_ tlb !! _); [done|].
  destruct (_ <=? _); [|done]. unfold TLB.evict_lru. by destruct (last _).
Qed.

(** C8.  A cache created with capacity 0 holds one entry after its first
    insertion: [insert] finds the map "full", [evict_lru] returns at once
    because the list is empty, and the entry is written all the same. *)
Theorem tlb_capacity_zero_overflows (entry : TLBEntry.t) :
  TLB.capacity_ (tlb_run (TLB.create 0) [OpInsert entry]) = 0 ∧
  TLB.size (tlb_run (TLB.create 0) [OpInsert entry]) = 1%nat.
Proof.
  split; [reflexivity|].
  unfold TLB.size, tlb_run. simpl. unfold TLB.insert. simpl.
  rewrite lookup_empty. simpl.
  rewrite map_size_insert_None by apply lookup_empty.
  by rewrite map_size_empty.
Qed.

(** C7.  With capacity 0 the property fails for k = 1: after inserting
    0 + 1 entries the first inserted key is still in the cache. *)
Theorem tlb_capacity_zero_keeps_key (entry : TLBEntry.t) :
  TLB.entries_ (foldl TLB.insert (TLB.create 0) [entry]) !! entry_key entry
  = Some (TLBEntry.with_timestamp entry 0).
Proof. exact (insert_lookup_key (TLB.create 0) entry). Qed.

(** ** The translation cache: eviction order *)

(** After inserting entries with pairwise distinct keys into an empty
    cache of capacity [N >= 1], the recency list holds the last [N] keys,
    most recent first. *)
Lemma insert_distinct_lru (N : Z) (es : list TLBEntry.t) :
  1 <= N -> NoDup (entry_key <$> es) ->
  TLB.lru_list_ (foldl TLB.insert (TLB.create N) es)
  = take (Z.to_nat N) (reverse (entry_key <$> es)) ∧
  tlb_consistent (foldl TLB.insert (TLB.create N) es) ∧
  TLB.capacity_ (foldl TLB.insert (TLB.create N) es) = N.
Proof.
  intros HN. induction es as [|e es IH] using rev_ind; intros Hnd.
  - simpl. rewrite reverse_nil, take_nil.
    split; [done|]. split; [apply tlb_consistent_create|done].
  - rewrite fmap_app in Hnd. simpl in Hnd.
    apply NoDup_app in Hnd as (Hnd & Hfresh & _).
    destruct (IH Hnd) as (Hlru & Hc & Hcap). clear IH.
    rewrite foldl_app. cbn [foldl].
    set (tlb := foldl TLB.insert (TLB.create N) es) in *.
    split; [|split; [by apply insert_consistent | by rewrite insert_capacity]].
    rewrite fmap_app. change (entry_key <$> [e]) with [entry_key e].
    rewrite reverse_snoc.
    pose proof (tlb_consistent_size tlb Hc) as Hsize. unfold TLB.size in Hsize.
    assert (Hnone : TLB.entries_ tlb !! entry_key e = None).
    { destruct (TLB.entries_ tlb !! entry_key e) eqn:He; [|done].
      exfalso. assert (Hin : entry_key e ∈ TLB.lru_list_ tlb) by (apply Hc; eauto).
      rewrite Hlru in Hin. apply elem_of_take in Hin as (i & Hi & _).
      apply list_elem_of_lookup_2 in Hi. rewrite elem_of_reverse in Hi.
      apply (Hfresh _ Hi). by apply list_elem_of_singleton. }
    unfold TLB.insert. fold (entry_key e). rewrite Hnone. rewrite Hcap.
    assert (Hlen : length (TLB.lru_list_ tlb)
                   = (Z.to_nat N `min` length (entry_key <$> es))%nat).
    { rewrite Hlru, length_take, length_reverse. done. }
    destruct (Z.leb_spec N (Z.of_nat (size (TLB.entries_ tlb)))) as [Hfull|Hroom]; simpl.
    + unfold TLB.evict_lru.
      destruct (last (TLB.lru_list_ tlb)) as [x|] eqn:Hlast.
      * simpl. f_equal. rewrite Hlru.
        destruct (Z.to_nat N) as [|m] eqn:Hn; [lia|].
        simpl. f_equal. apply removelast_firstn. rewrite length_reverse. lia.
      * apply last_None in Hlast. rewrite Hlast in Hsize. simpl in Hsize. lia.
    + rewrite Hlru. rewrite (take_ge (reverse _)) by (rewrite length_reverse; lia).
      rewrite take_ge; [done|]. simpl. rewrite length_reverse. lia.
Qed.

(** The property of claim C7 on the capacities for which the code has
    it: from an empty cache of capacity [N >= 1], after [N + k] insertions
    with pairwise distinct keys and nothing in between, none of the first
    [k] keys is in the map. *)
Theorem tlb_overflow_evicts_oldest (N : Z) (k : nat) (es : list TLBEntry.t) :
  1 <= N ->
  NoDup (entry_key <$> es) ->
  length es = (Z.to_nat N + k)%nat ->
  ∀ i e, (i < k)%nat -> es !! i = Some e ->
    TLB.entries_ (foldl TLB.insert (TLB.create N) es) !! entry_key e = None.
Proof.
  intros HN Hnd Hlen i e Hi He.
  destruct (insert_distinct_lru N es HN Hnd) as (Hlru & [_ Hdom] & _).
  destruct (TLB.entries_ _ !! entry_key e) eqn:Hpresent; [|done].
  exfalso.
  assert (Hin : entry_key e ∈ TLB.lru_list_ (foldl TLB.insert (TLB.create N) es))
    by (apply Hdom; eauto).
  rewrite Hlru in Hin.
  (* the list is the reversal of the keys from position k on *)
  rewrite <- (take_drop k (entry_key <$> es)) in Hin, Hnd.
  rewrite reverse_app in Hin.
  rewrite take_app_length' in Hin
    by (rewrite length_reverse, length_drop, length_fmap; lia).
  rewrite elem_of_reverse in Hin.
  apply NoDup_app in Hnd as (_ & Hdisj & _).
  apply (Hdisj (entry_key e)); [|done].
  apply (list_elem_of_lookup_2 _ i). rewrite lookup_take_lt by done.
  by rewrite list_lookup_fmap, He.
Qed.

Lemma tlb_overflow_evicts_oldest_example :
  let e (va : Z) := {| TLBEntry.va := va; TLBEntry.pa := va; TLBEntry.stream_id := 0;
                       TLBEntry.asid := 1; TLBEntry.vmid := 0;
                       TLBEntry.page_size := SIZE_4KB; TLBEntry.memory_type := NORMAL_WB;
                       TLBEntry.permission := READ_WRITE; TLBEntry.cacheable := true;
                       TLBEntry.shareable := false; TLBEntry.stage := STAGE1;
                       TLBEntry.timestamp := 0 |} in
  TLB.entries_ (foldl TLB.insert (TLB.create 2) [e 0x1000; e 0x2000; e 0x3000])
    !! entry_key (e 0x1000) = None.
Proof.
  intros e.
  apply (tlb_overflow_evicts_oldest 2 1 [e 0x1000; e 0x2000; e 0x3000]
           ltac:(lia) ltac:(apply (bool_decide_unpack _); vm_compute; exact I)
           eq_refl 0%nat (e 0x1000) ltac:(lia) eq_refl).
Defined.

(** ** The orchestrator: faults and events *)

Lemma fault_recorded_intro (s : SMMU.t) sid asid vmid va reason :
  fault_recorded (SMMU.event_queue_ s) (SMMUConfig.event_queue_size (SMMU.config_ s))
    (Statistics.events_generated (SMMU.stats_ s))
    (Statistics.translation_faults (SMMU.stats_ s)) reason
    (SMMU.set_stats
       (SMMU.generate_event s TRANSLATION_FAULT sid asid vmid va reason)
       (Statistics.inc_translation_faults
          (SMMU.stats_ (SMMU.generate_event s TRANSLATION_FAULT sid asid vmid va reason)))).
Proof.
  unfold fault_recorded, SMMU.generate_event.
  destruct (Z.ltb_spec (Z.of_nat (length (SMMU.event_queue_ s)))
              (SMMUConfig.event_queue_size (SMMU.config_ s))) as [Hroom|Hfull]; simpl.
  - split; [done|]. split; [|lia]. intros _. eexists. repeat split.
  - split; [done|]. split; [lia|done].
Qed.

(** A stage either succeeds, and then has only counted a walk, or fails
    after recording one fault. *)
Lemma translate_stage1_effect mem (s : SMMU.t) va ste cd s' r :
  SMMU.translate_stage1 mem s va ste cd = (s', r) ->
  if success r
  then s' = SMMU.set_stats s (Statistics.inc_page_table_walks (SMMU.stats_ s))
  else fault_recorded (SMMU.event_queue_ s) (SMMUConfig.event_queue_size (SMMU.config_ s))
         (Statistics.events_generated (SMMU.stats_ s))
         (Statistics.translation_faults (SMMU.stats_ s)) (fault_reason r) s'.
Proof.
  unfold SMMU.translate_stage1.
  destruct (ContextDescriptor.valid cd); cbn [negb].
  - destruct (PageTableWalker.translate mem va _ _ _ _) as [[] pa mt perm c sh reason];
      cbn [success negb fault_reason]; intros [= <- <-]; cbn [success]; [done|].
    apply (fault_recorded_intro
             (SMMU.set_stats s (Statistics.inc_page_table_walks (SMMU.stats_ s)))).
  - intros [= <- <-]. cbn [success fault]. apply fault_recorded_intro.
Qed.

Lemma translate_stage2_effect mem (s : SMMU.t) ipa ste s' r :
  StreamTableEntry.s2_enabled ste = true ->
  SMMU.translate_stage2 mem s ipa ste = (s', r) ->
  if success r
  then s' = SMMU.set_stats s (Statistics.inc_page_table_walks (SMMU.stats_ s))
  else fault_recorded (SMMU.event_queue_ s) (SMMUConfig.event_queue_size (SMMU.config_ s))
         (Statistics.events_generated (SMMU.stats_ s))
         (Statistics.translation_faults (SMMU.stats_ s)) (fault_reason r) s'.
Proof.
  unfold SMMU.translate_stage2. intros ->. cbn [negb].
  destruct (PageTableWalker.translate mem ipa _ _ _ _) as [[] pa mt perm c sh reason];
    cbn [success negb fault_reason]; intros [= <- <-]; cbn [success]; [done|].
  apply (fault_recorded_intro
           (SMMU.set_stats s (Statistics.inc_page_table_walks (SMMU.stats_ s)))).
Qed.

(** C3.  A call of [translate] on an enabled unit that fails increments
    [translation_faults] by one (as a 64-bit counter) and generates one
    Translation event carrying the returned reason: when the event queue
    has room the event is appended and [events_generated] is incremented
    by one; when the queue is full the event is dropped and both the queue
    and [events_generated] stay as they were. *)
Theorem translate_failure_one_event mem (s : SMMU.t) va sid asid vmid s' r :
  SMMU.enabled_ s = true ->
  SMMU.translate mem s va sid asid vmid = (s', r) ->
  success r = false ->
  Statistics.translation_faults (SMMU.stats_ s')
  = u64 (Statistics.translation_faults (SMMU.stats_ s) + 1) ∧
  (Z.of_nat (length (SMMU.event_queue_ s)) < SMMUConfig.event_queue_size (SMMU.config_ s) ->
   ∃ ev, SMMU.event_queue_ s' = SMMU.event_queue_ s ++ [ev] ∧
         Event.fault_type ev = TRANSLATION_FAULT ∧
         Event.description ev = fault_reason r ∧
         Statistics.events_generated (SMMU.stats_ s')
         = u64 (Statistics.events_generated (SMMU.stats_ s) + 1)) ∧
  (SMMUConfig.event_queue_size (SMMU.config_ s) <= Z.of_nat (length (SMMU.event_queue_ s)) ->
   SMMU.event_queue_ s' = SMMU.event_queue_ s ∧
   Statistics.events_generated (SMMU.stats_ s')
   = Statistics.events_generated (SMMU.stats_ s)).
Proof.
  intros Hen Htr Hfail.
  change (fault_recorded (SMMU.event_queue_ s)
            (SMMUConfig.event_queue_size (SMMU.config_ s))
            (Statistics.events_generated (SMMU.stats_ s))
            (Statistics.translation_faults (SMMU.stats_ s)) (fault_reason r) s').
  unfold SMMU.translate in Htr.
  cbn [SMMU.enabled_ SMMU.set_stats] in Htr. rewrite Hen in Htr. cbn [negb] in Htr.
  destruct (TLB.lookup _ va sid asid vmid) as [tlb' [e|]].
  { injection Htr as <- <-. discriminate Hfail. }
  set (s2 := SMMU.set_stats _ (Statistics.inc_tlb_misses _)) in Htr.
  destruct (StreamTableEntry.valid (SMMU.get_stream_table_entry s2 sid)); cbn [negb] in Htr;
    [|injection Htr as <- <-; apply (fault_recorded_intro s2)].
  destruct (StreamTableEntry.s1_enabled (SMMU.get_stream_table_entry s2 sid)).
  - destruct (SMMU.translate_stage1 mem s2 va _ _) as [s3 r1] eqn:H1.
    apply translate_stage1_effect in H1.
    destruct (success r1) eqn:Hr1; cbn [negb] in Htr;
      [|injection Htr as <- <-; exact H1].
    subst s3.
    destruct (StreamTableEntry.s2_enabled (SMMU.get_stream_table_entry s2 sid)) eqn:Hs2.
    + destruct (SMMU.translate_stage2 mem _ _ _) as [s4 r2] eqn:H2.
      apply translate_stage2_effect in H2; [|exact Hs2].
      unfold SMMU.fill_tlb in Htr.
      destruct (success r2) eqn:Hr2; injection Htr as <- <-; [congruence|].
      exact H2.
    + unfold SMMU.fill_tlb in Htr. rewrite Hr1 in Htr.
      injection Htr as <- <-. congruence.
  - destruct (StreamTableEntry.s2_enabled (SMMU.get_stream_table_entry s2 sid)) eqn:Hs2.
    + destruct (SMMU.translate_stage2 mem _ _ _) as [s3 r2] eqn:H2.
      apply translate_stage2_effect in H2; [|exact Hs2].
      unfold SMMU.fill_tlb in Htr.
      destruct (success r2) eqn:Hr2; injection Htr as <- <-; [congruence|].
      exact H2.
    + injection Htr as <- <-. apply (fault_recorded_intro s2).
Qed.

Lemma translate_failure_one_event_witness :
  let mem := SimpleMemoryModel.memory_read mem_pages in
  let s' := fst (SMMU.translate mem smmu_ready 0x100000 0 1 0) in
  let r := snd (SMMU.translate mem smmu_ready 0x100000 0 1 0) in
  Statistics.translation_faults (SMMU.stats_ s')
  = u64 (Statistics.translation_faults (SMMU.stats_ smmu_ready) + 1) ∧
  (Z.of_nat (length (SMMU.event_queue_ smmu_ready))
   < SMMUConfig.event_queue_size (SMMU.config_ smmu_ready) ->
   ∃ ev, SMMU.event_queue_ s' = SMMU.event_queue_ smmu_ready ++ [ev] ∧
         Event.fault_type ev = TRANSLATION_FAULT ∧
         Event.description ev = fault_reason r ∧
         Statistics.events_generated (SMMU.stats_ s')
         = u64 (Statistics.events_generated (SMMU.stats_ smmu_ready) + 1)) ∧
  (SMMUConfig.event_queue_size (SMMU.config_ smmu_ready)
   <= Z.of_nat (length (SMMU.event_queue_ smmu_ready)) ->
   SMMU.event_queue_ s' = SMMU.event_queue_ smmu_ready ∧
   Statistics.events_generated (SMMU.stats_ s')
   = Statistics.events_generated (SMMU.stats_ smmu_ready)).
Proof.
  apply (translate_failure_one_event (SimpleMemoryModel.memory_read mem_pages)
           smmu_ready 0x100000 0 1 0).
  - reflexivity.
  - vm_compute. reflexivity.
  - vm_compute. reflexivity.
Defined.

(** Scenario S5 of the specification: an unmapped address fails with the
    descriptor-invalid reason, one event, one counted fault. *)
Example translate_unmapped :
  let '(s', r) := SMMU.translate (SimpleMemoryModel.memory_read mem_pages)
                    smmu_ready 0x100000 0 1 0 in
  success r = false ∧
  fault_reason r = "Translation fault: invalid descriptor" ∧
  length (SMMU.event_queue_ s') = 1%nat ∧
  Statistics.translation_faults (SMMU.stats_ s') = 1 ∧
  Statistics.events_generated (SMMU.stats_ s') = 1.
Proof. vm_compute. repeat split. Qed.

(** ** The orchestrator: the command channel *)

Lemma set_command_queue_id (s : SMMU.t) : SMMU.set_command_queue s (SMMU.command_queue_ s) = s.
Proof. by destruct s. Qed.

Lemma submit_all (cmds : list Command) :
  ∀ s : SMMU.t,
    Z.of_nat (length (SMMU.command_queue_ s)) + Z.of_nat (length cmds)
    <= SMMUConfig.command_queue_size (SMMU.config_ s) ->
    foldl SMMU.submit_command s cmds
    = SMMU.set_command_queue s (SMMU.command_queue_ s ++ cmds).
Proof.
  induction cmds as [|c cmds IH]; intros s Hroom; cbn [foldl].
  - by rewrite app_nil_r, set_command_queue_id.
  - cbn [length] in Hroom. unfold SMMU.submit_command at 2.
    destruct (Z.ltb_spec (Z.of_nat (length (SMMU.command_queue_ s)))
                (SMMUConfig.command_queue_size (SMMU.config_ s))) as [_|?]; [|lia].
    rewrite IH; cbn [SMMU.set_command_queue SMMU.command_queue_ SMMU.config_].
    + by rewrite <- app_assoc.
    + rewrite length_app. cbn [length]. lia.
Qed.

Lemma process_command_set_queue (s : SMMU.t) q c :
  SMMU.process_command (SMMU.set_command_queue s q) c
  = SMMU.set_command_queue (SMMU.process_command s c) q.
Proof. by destruct c. Qed.

Lemma foldl_process_set_queue (l : list Command) :
  ∀ (s : SMMU.t) q,
    foldl SMMU.process_command (SMMU.set_command_queue s q) l
    = SMMU.set_command_queue (foldl SMMU.process_command s l) q.
Proof.
  induction l as [|c l IH]; intros s q; cbn [foldl]; [done|].
  by rewrite process_command_set_queue, IH.
Qed.

(** The drain loop applies [process_command] to the pending commands from
    the front of the queue to its back and leaves the queue empty. *)
Lemma process_loop_foldl (pending : list Command) :
  ∀ s : SMMU.t,
    SMMU.process_loop pending (SMMU.set_command_queue s pending)
    = SMMU.set_command_queue (foldl SMMU.process_command s pending) [].
Proof.
  induction pending as [|c rest IH]; intros s; cbn [SMMU.process_loop foldl]; [done|].
  change (SMMU.set_command_queue (SMMU.set_command_queue s (c :: rest)) rest)
    with (SMMU.set_command_queue s rest).
  rewrite process_command_set_queue. apply IH.
Qed.

Lemma process_commands_foldl (s : SMMU.t) :
  SMMU.process_commands s
  = SMMU.set_command_queue (foldl SMMU.process_command s (SMMU.command_queue_ s)) [].
Proof.
  unfold SMMU.process_commands.
  rewrite <- (set_command_queue_id s) at 2. apply process_loop_foldl.
Qed.

Lemma process_command_counter (s : SMMU.t) c :
  Statistics.commands_processed (SMMU.stats_ (SMMU.process_command s c))
  = u64 (Statistics.commands_processed (SMMU.stats_ s) + 1).
Proof. by destruct c. Qed.

Lemma foldl_process_counter (l : list Command) :
  ∀ s : SMMU.t,
    0 <= Statistics.commands_processed (SMMU.stats_ s) < two64 ->
    Statistics.commands_processed (SMMU.stats_ (foldl SMMU.process_command s l))
    = u64 (Statistics.commands_processed (SMMU.stats_ s) + Z.of_nat (length l)).
Proof.
  induction l as [|c l IH]; intros s Hrange; cbn [foldl length].
  - unfold u64. rewrite Z.add_0_r, Z.mod_small; [done|exact Hrange].
  - rewrite IH.
    + rewrite process_command_counter. unfold u64.
      rewrite Zplus_mod_idemp_l. f_equal. lia.
    + rewrite process_command_counter. unfold u64, two64. apply Z.mod_pos_bound. lia.
Qed.

(** C9, as the code has it.  When [N] commands are submitted to a queue
    that holds [M] pending commands and has at least [N] free slots, and
    the queue is then drained, the final state is the one obtained by
    processing the [M] pending commands and then the [N] submitted ones,
    one by one in submission order, with the queue left empty; the 64-bit
    counter [commands_processed] has advanced by [M + N], which is [N]
    when nothing was pending. *)
Theorem submit_then_drain (s : SMMU.t) (cmds : list Command) :
  Z.of_nat (length (SMMU.command_queue_ s)) + Z.of_nat (length cmds)
  <= SMMUConfig.command_queue_size (SMMU.config_ s) ->
  0 <= Statistics.commands_processed (SMMU.stats_ s) < two64 ->
  let s' := SMMU.process_commands (foldl SMMU.submit_command s cmds) in
  s' = SMMU.set_command_queue
         (foldl SMMU.process_command s (SMMU.command_queue_ s ++ cmds)) [] ∧
  SMMU.command_queue_ s' = [] ∧
  Statistics.commands_processed (SMMU.stats_ s')
  = u64 (Statistics.commands_processed (SMMU.stats_ s)
         + Z.of_nat (length (SMMU.command_queue_ s)) + Z.of_nat (length cmds)) ∧
  (SMMU.command_queue_ s = [] ->
   Statistics.commands_processed (SMMU.stats_ s')
   = u64 (Statistics.commands_processed (SMMU.stats_ s) + Z.of_nat (length cmds))).
Proof.
  intros Hroom Hrange s'.
  assert (Hs' : s' = SMMU.set_command_queue
                       (foldl SMMU.process_command s (SMMU.command_queue_ s ++ cmds)) []).
  { subst s'. rewrite submit_all by exact Hroom. rewrite process_commands_foldl.
    cbn [SMMU.command_queue_ SMMU.set_command_queue].
    by rewrite foldl_process_set_queue. }
  assert (Hcount : Statistics.commands_processed (SMMU.stats_ s')
                   = u64 (Statistics.commands_processed (SMMU.stats_ s)
                          + Z.of_nat (length (SMMU.command_queue_ s))
                          + Z.of_nat (length cmds))).
  { rewrite Hs'. cbn [SMMU.stats_ SMMU.set_command_queue].
    rewrite foldl_process_counter by exact Hrange.
    rewrite length_app. f_equal. lia. }
  split; [exact Hs'|]. split; [by rewrite Hs'|]. split; [exact Hcount|].
  intros Hempty. rewrite Hcount, Hempty. cbn [length]. f_equal. lia.
Qed.

Lemma submit_then_drain_witness :
  let s' := SMMU.process_commands
              (foldl SMMU.submit_command smmu_pending [CMD_TLBI_NH_ASID 1; CMD_SYNC]) in
  s' = SMMU.set_command_queue
         (foldl SMMU.process_command smmu_pending
            (SMMU.command_queue_ smmu_pending ++ [CMD_TLBI_NH_ASID 1; CMD_SYNC])) [] ∧
  SMMU.command_queue_ s' = [] ∧
  Statistics.commands_processed (SMMU.stats_ s')
  = u64 (Statistics.commands_processed (SMMU.stats_ smmu_pending)
         + Z.of_nat (length (SMMU.command_queue_ smmu_pending))
         + Z.of_nat (length [CMD_TLBI_NH_ASID 1; CMD_SYNC])) ∧
  (SMMU.command_queue_ smmu_pending = [] ->
   Statistics.commands_processed (SMMU.stats_ s')
   = u64 (Statistics.commands_processed (SMMU.stats_ smmu_pending)
          + Z.of_nat (length [CMD_TLBI_NH_ASID 1; CMD_SYNC]))).
Proof.
  apply (submit_then_drain smmu_pending [CMD_TLBI_NH_ASID 1; CMD_SYNC]).
  - vm_compute. discriminate.
  - vm_compute. split; [discriminate | reflexivity].
Defined.

(** C9 as stated fails when a command is already pending: the queue of
    [smmu_pending] holds one command and has 63 free slots; submitting one
    more command (N = 1) and draining advances [commands_processed] from 0
    to 2. *)
Lemma submit_then_drain_counts_pending :
  Z.of_nat (length (SMMU.command_queue_ smmu_pending)) + Z.of_nat (length [CMD_TLBI_NH_ALL])
  <= SMMUConfig.command_queue_size (SMMU.config_ smmu_pending) ∧
  Statistics.commands_processed (SMMU.stats_ smmu_pending) = 0 ∧
  Statistics.commands_processed
    (SMMU.stats_ (SMMU.process_commands
                    (foldl SMMU.submit_command smmu_pending [CMD_TLBI_NH_ALL]))) = 2 ∧
  Statistics.commands_processed
    (SMMU.stats_ (SMMU.process_commands
                    (foldl SMMU.submit_command smmu_pending [CMD_TLBI_NH_ALL])))
  ≠ u64 (Statistics.commands_processed (SMMU.stats_ smmu_pending)
         + Z.of_nat (length [CMD_TLBI_NH_ALL])).
Proof. vm_compute. repeat split; discriminate. Qed.

(** ** The orchestrator: cache fill and cache hit *)

Lemma lookup_loop_snd_ext sizes (t1 t2 : TLB.t) va sid asid vmid :
  TLB.entries_ t1 = TLB.entries_ t2 ->
  snd (TLB.lookup_loop sizes t1 va sid asid vmid)
  = snd (TLB.lookup_loop sizes t2 va sid asid vmid).
Proof.
  intros Heq. induction sizes as [|ps sizes IH]; cbn [TLB.lookup_loop]; [done|].
  rewrite Heq. by destruct (TLB.entries_ t2 !! _).
Qed.

Lemma lookup_loop_None sizes (tlb : TLB.t) va sid asid vmid :
  snd (TLB.lookup_loop sizes tlb va sid asid vmid) = None ->
  ∀ ps, ps ∈ sizes -> TLB.entries_ tlb !! TLB.make_key va ps sid asid vmid = None.
Proof.
  induction sizes as [|p sizes IH]; cbn [TLB.lookup_loop]; intros Hmiss ps Hin.
  - by apply elem_of_nil in Hin.
  - destruct (TLB.entries_ tlb !! TLB.make_key va p sid asid vmid) eqn:Hp;
      [discriminate Hmiss|].
    apply elem_of_cons in Hin as [-> | Hin]; [exact Hp | by apply IH].
Qed.

(** A probe finds [e] when every probed key is either the key of [e] or
    absent, and the key of [e] is among the probed ones. *)
Lemma lookup_loop_found sizes (tlb : TLB.t) va sid asid vmid key e :
  (∀ ps, ps ∈ sizes ->
     TLB.entries_ tlb !! TLB.make_key va ps sid asid vmid
     = if decide (TLB.make_key va ps sid asid vmid = key) then Some e else None) ->
  (∃ ps, ps ∈ sizes ∧ TLB.make_key va ps sid asid vmid = key) ->
  snd (TLB.lookup_loop sizes tlb va sid asid vmid) = Some e.
Proof.
  induction sizes as [|p sizes IH]; intros Hprobe (ps & Hin & Hkey).
  - by apply elem_of_nil in Hin.
  - cbn [TLB.lookup_loop].
    rewrite (Hprobe p) by (apply elem_of_cons; by left).
    destruct (decide (TLB.make_key va p sid asid vmid = key)) as [_|Hne]; [done|].
    apply IH.
    + intros q Hq. apply Hprobe. apply elem_of_cons. by right.
    + apply elem_of_cons in Hin as [-> | Hin]; [done|]. by exists ps.
Qed.

Lemma insert_entries_other (tlb : TLB.t) entry (k : Z * Z * Z * Z) :
  k ≠ entry_key entry -> TLB.entries_ tlb !! k = None ->
  TLB.entries_ (TLB.insert tlb entry) !! k = None.
Proof.
  intros Hne Hk. unfold TLB.insert. fold (entry_key entry).
  cbn [TLB.entries_]. rewrite lookup_insert_ne by done.
  destruct (TLB.entries_ tlb !! entry_key entry); [exact Hk|].
  destruct (_ <=? _); [|exact Hk].
  unfold TLB.evict_lru. destruct (last _) as [x|]; [|exact Hk].
  cbn [TLB.entries_]. apply lookup_delete_None. by right.
Qed.

(** After a miss for a request and the insertion of an entry filed under
    the request's 4 KiB key, the same request hits that entry. *)
Lemma lookup_after_insert (tlb0 tlb : TLB.t) va sid asid vmid entry :
  snd (TLB.lookup tlb0 va sid asid vmid) = None ->
  TLB.entries_ tlb = TLB.entries_ tlb0 ->
  entry_key entry = TLB.make_key va SIZE_4KB sid asid vmid ->
  snd (TLB.lookup (TLB.insert tlb entry) va sid asid vmid)
  = Some (TLBEntry.with_timestamp entry (TLB.timestamp_counter_ tlb)).
Proof.
  intros Hmiss Heq Hkey. unfold TLB.lookup in *.
  apply (lookup_loop_found _ _ _ _ _ _ (entry_key entry)).
  - intros ps Hps. destruct (decide (TLB.make_key va ps sid asid vmid = entry_key entry))
      as [-> | Hne].
    + apply insert_lookup_key.
    + apply insert_entries_other; [done|]. rewrite Heq.
      by apply (lookup_loop_None _ _ _ _ _ _ Hmiss).
  - exists SIZE_4KB. split; [|done]. unfold TLB.probe_sizes.
    do 3 (apply elem_of_cons; right). apply elem_of_cons. by left.
Qed.

Lemma lookup_again (tlb : TLB.t) va sid asid vmid :
  snd (TLB.lookup (fst (TLB.lookup tlb va sid asid vmid)) va sid asid vmid)
  = snd (TLB.lookup tlb va sid asid vmid).
Proof.
  unfold TLB.lookup. apply lookup_loop_snd_ext. apply lookup_loop_entries.
Qed.

(** A successful walk carries no fault reason. *)
Lemma walk_loop_success_reason mem remaining ctx :
  ∀ table_base level,
    success (fst (PageTableWalker.walk_loop mem remaining ctx table_base level)) = true ->
    fault_reason (fst (PageTableWalker.walk_loop mem remaining ctx table_base level)) = "".
Proof.
  induction remaining as [|n IH]; intros tb level; cbn [PageTableWalker.walk_loop];
    [discriminate|].
  destruct (PageTableWalker.read_descriptor mem _) as [dv|]; [|discriminate].
  destruct (negb (PageTableDescriptor.valid _)); [discriminate|].
  destruct (negb (PageTableDescriptor.is_table _)); [done|].
  specialize (IH (PageTableDescriptor.address
                    (PageTableWalker.parse_descriptor dv level
                       (PageTableWalker.ctx_granule_size ctx))) (level + 1)).
  destruct (PageTableWalker.walk_loop mem n ctx _ (level + 1)) as [r reads].
  exact IH.
Qed.

Lemma walker_success_reason mem va ttb g ips stage :
  success (PageTableWalker.translate mem va ttb g ips stage) = true ->
  fault_reason (PageTableWalker.translate mem va ttb g ips stage) = "".
Proof.
  unfold PageTableWalker.translate, PageTableWalker.translate_reads,
    PageTableWalker.walk_table.
  repeat (destruct (g =? _); [apply walk_loop_success_reason|]).
  discriminate.
Qed.

Lemma translate_stage1_reason mem (s : SMMU.t) va ste cd s' r :
  SMMU.translate_stage1 mem s va ste cd = (s', r) ->
  success r = true -> fault_reason r = "".
Proof.
  unfold SMMU.translate_stage1.
  destruct (ContextDescriptor.valid cd); cbn [negb]; [|by intros [= <- <-]].
  pose proof (walker_success_reason mem va
                (ContextDescriptor.translation_table_base cd)
                (ContextDescriptor.translation_granule cd)
                (ContextDescriptor.ips cd) STAGE1) as Hw.
  destruct (success (PageTableWalker.translate mem va _ _ _ _)) eqn:Hs; cbn [negb];
    intros [= <- <-]; [auto | by rewrite Hs].
Qed.

Lemma translate_stage2_reason mem (s : SMMU.t) ipa ste s' r :
  StreamTableEntry.s2_enabled ste = true ->
  SMMU.translate_stage2 mem s ipa ste = (s', r) ->
  success r = true -> fault_reason r = "".
Proof.
  unfold SMMU.translate_stage2. intros ->. cbn [negb].
  pose proof (walker_success_reason mem ipa
                (StreamTableEntry.s2_translation_table_base ste)
                (StreamTableEntry.s2_granule ste) 48 STAGE2) as Hw.
  destruct (success (PageTableWalker.translate mem ipa _ _ _ _)) eqn:Hs; cbn [negb];
    intros [= <- <-]; [auto | by rewrite Hs].
Qed.

Lemma translate_enabled mem (s : SMMU.t) va sid asid vmid s' r :
  SMMU.translate mem s va sid asid vmid = (s', r) ->
  success r = true -> SMMU.enabled_ s = true.
Proof.
  unfold SMMU.translate. cbn [SMMU.enabled_ SMMU.set_stats].
  destruct (SMMU.enabled_ s); [done|]. cbn [negb]. by intros [= <- <-].
Qed.

(** The hit path of [translate]. *)
Lemma translate_hit mem (s : SMMU.t) va sid asid vmid e :
  SMMU.enabled_ s = true ->
  snd (TLB.lookup (SMMU.tlb_ s) va sid asid vmid) = Some e ->
  SMMU.translate mem s va sid asid vmid
  = (SMMU.set_stats
       (SMMU.set_tlb (SMMU.set_stats s (Statistics.inc_total_translations (SMMU.stats_ s)))
                     (fst (TLB.lookup (SMMU.tlb_ s) va sid asid vmid)))
       (Statistics.inc_tlb_hits (Statistics.inc_total_translations (SMMU.stats_ s))),
     {| success := true; physical_addr := TLBEntry.pa e;
        memory_type := TLBEntry.memory_type e; permission := TLBEntry.permission e;
        cacheable := TLBEntry.cacheable e; shareable := TLBEntry.shareable e;
        fault_reason := "" |}).
Proof.
  intros Hen Hhit. unfold SMMU.translate.
  cbn [SMMU.enabled_ SMMU.set_stats SMMU.tlb_]. rewrite Hen. cbn [negb].
  destruct (TLB.lookup (SMMU.tlb_ s) va sid asid vmid) as [tlb' oe].
  cbn [fst snd] in *. by subst oe.
Qed.

(** The miss path of [translate], when it succeeds: the cache of the new
    state is that of the old one after the probe and the insertion of an
    entry built from the request and the result. *)
Lemma translate_miss_success mem (s : SMMU.t) va sid asid vmid s' r :
  SMMU.translate mem s va sid asid vmid = (s', r) ->
  success r = true ->
  snd (TLB.lookup (SMMU.tlb_ s) va sid asid vmid) = None ->
  fault_reason r = "" ∧
  SMMU.enabled_ s' = true ∧
  ∃ entry,
    SMMU.tlb_ s' = TLB.insert (fst (TLB.lookup (SMMU.tlb_ s) va sid asid vmid)) entry ∧
    TLBEntry.va entry = va ∧ TLBEntry.stream_id entry = sid ∧
    TLBEntry.asid entry = asid ∧ TLBEntry.vmid entry = vmid ∧
    TLBEntry.page_size entry = SIZE_4KB ∧
    TLBEntry.pa entry = physical_addr r ∧
    TLBEntry.memory_type entry = memory_type r ∧
    TLBEntry.permission entry = permission r ∧
    TLBEntry.cacheable entry = cacheable r ∧
    TLBEntry.shareable entry = shareable r.
Proof.
  intros Htr Hok Hmiss.
  pose proof (translate_enabled _ _ _ _ _ _ _ _ Htr Hok) as Hen.
  unfold SMMU.translate in Htr.
  cbn [SMMU.enabled_ SMMU.set_stats SMMU.tlb_] in Htr. rewrite Hen in Htr.
  cbn [negb] in Htr.
  destruct (TLB.lookup (SMMU.tlb_ s) va sid asid vmid) as [tlb' oe].
  cbn [fst snd] in *. subst oe.
  set (s2 := SMMU.set_stats _ (Statistics.inc_tlb_misses _)) in Htr.
  assert (Hfill : ∀ (s3 : SMMU.t) r3,
             SMMU.enabled_ s3 = true -> SMMU.tlb_ s3 = tlb' ->
             fault_reason r3 = "" ->
             SMMU.fill_tlb s3 va sid asid vmid (SMMU.get_stream_table_entry s2 sid) r3
             = (s', r) ->
             fault_reason r = "" ∧ SMMU.enabled_ s' = true ∧
             ∃ entry,
               SMMU.tlb_ s' = TLB.insert tlb' entry ∧
               TLBEntry.va entry = va ∧ TLBEntry.stream_id entry = sid ∧
               TLBEntry.asid entry = asid ∧ TLBEntry.vmid entry = vmid ∧
               TLBEntry.page_size entry = SIZE_4KB ∧
               TLBEntry.pa entry = physical_addr r ∧
               TLBEntry.memory_type entry = memory_type r ∧
               TLBEntry.permission entry = permission r ∧
               TLBEntry.cacheable entry = cacheable r ∧
               TLBEntry.shareable entry = shareable r).
  { intros s3 r3 Hen3 Htlb3 Hreason3. unfold SMMU.fill_tlb.
    destruct (success r3) eqn:Hr3; intros [= <- <-]; [|congruence].
    split; [exact Hreason3|]. split; [exact Hen3|].
    eexists. split; [cbn [SMMU.tlb_ SMMU.set_tlb]; rewrite Htlb3; reflexivity|].
    repeat split. }
  destruct (StreamTableEntry.valid (SMMU.get_stream_table_entry s2 sid)); cbn [negb] in Htr;
    [|injection Htr as <- <-; discriminate Hok].
  destruct (StreamTableEntry.s1_enabled (SMMU.get_stream_table_entry s2 sid)).
  - destruct (SMMU.translate_stage1 mem s2 va _ _) as [s3 r1] eqn:H1.
    pose proof (translate_stage1_reason _ _ _ _ _ _ _ H1) as Hreason1.
    apply translate_stage1_effect in H1.
    destruct (success r1) eqn:Hr1; cbn [negb] in Htr;
      [|injection Htr as <- <-; congruence].
    subst s3.
    destruct (StreamTableEntry.s2_enabled (SMMU.get_stream_table_entry s2 sid)) eqn:Hs2.
    + destruct (SMMU.translate_stage2 mem _ _ _) as [s4 r2] eqn:H2.
      pose proof (translate_stage2_reason _ _ _ _ _ _ Hs2 H2) as Hreason2.
      apply translate_stage2_effect in H2; [|exact Hs2].
      destruct (success r2) eqn:Hr2.
      * subst s4. eapply Hfill; cycle 3; [exact Htr | exact Hen | reflexivity | auto].
      * unfold SMMU.fill_tlb in Htr. rewrite Hr2 in Htr.
        injection Htr as <- <-. congruence.
    + eapply Hfill; cycle 3; [exact Htr | exact Hen | reflexivity | auto].
  - destruct (StreamTableEntry.s2_enabled (SMMU.get_stream_table_entry s2 sid)) eqn:Hs2.
    + destruct (SMMU.translate_stage2 mem _ _ _) as [s3 r2] eqn:H2.
      pose proof (translate_stage2_reason _ _ _ _ _ _ Hs2 H2) as Hreason2.
      apply translate_stage2_effect in H2; [|exact Hs2].
      destruct (success r2) eqn:Hr2.
      * subst s3. eapply Hfill; cycle 3; [exact Htr | exact Hen | reflexivity | auto].
      * unfold SMMU.fill_tlb in Htr. rewrite Hr2 in Htr.
        injection Htr as <- <-. congruence.
    + injection Htr as <- <-. discriminate Hok.
Qed.

(** C2.  When [translate] succeeds after a cache miss, the cache of the
    new state holds, under the key made of the 4 KiB page base of [va]
    and of the request's stream, ASID and VMID, an entry for this request
    whose [page_size] is 4 KiB and whose address and attributes are those
    of the result, whatever the size of the region the walk ended in. *)
Theorem translate_miss_installs_4k mem (s : SMMU.t) va sid asid vmid s' r :
  SMMU.translate mem s va sid asid vmid = (s', r) ->
  success r = true ->
  snd (TLB.lookup (SMMU.tlb_ s) va sid asid vmid) = None ->
  ∃ e,
    TLB.entries_ (SMMU.tlb_ s') !! (TLB.get_page_base va SIZE_4KB, sid, asid, vmid) = Some e ∧
    TLBEntry.va e = va ∧ TLBEntry.stream_id e = sid ∧
    TLBEntry.asid e = asid ∧ TLBEntry.vmid e = vmid ∧
    TLBEntry.page_size e = SIZE_4KB ∧
    TLBEntry.pa e = physical_addr r ∧
    TLBEntry.memory_type e = memory_type r ∧
    TLBEntry.permission e = permission r ∧
    TLBEntry.cacheable e = cacheable r ∧
    TLBEntry.shareable e = shareable r.
Proof.
  intros Htr Hok Hmiss.
  destruct (translate_miss_success _ _ _ _ _ _ _ _ Htr Hok Hmiss)
    as (_ & _ & entry & Htlb & Hva & Hsid & Hasid & Hvmid & Hps & Hrest).
  exists (TLBEntry.with_timestamp entry
            (TLB.timestamp_counter_ (fst (TLB.lookup (SMMU.tlb_ s) va sid asid vmid)))).
  split; [|by rewrite <- Hva, <- Hsid, <- Hasid, <- Hvmid at 1].
  rewrite Htlb, <- insert_lookup_key. f_equal.
  unfold entry_key, TLB.make_key. by rewrite Hva, Hsid, Hasid, Hvmid, Hps.
Qed.

Lemma translate_miss_installs_4k_witness :
  let mem := SimpleMemoryModel.memory_read mem_block in
  let s' := fst (SMMU.translate mem smmu_ready 0x12345 0 1 0) in
  let r := snd (SMMU.translate mem smmu_ready 0x12345 0 1 0) in
  ∃ e,
    TLB.entries_ (SMMU.tlb_ s') !! (TLB.get_page_base 0x12345 SIZE_4KB, 0, 1, 0) = Some e ∧
    TLBEntry.va e = 0x12345 ∧ TLBEntry.stream_id e = 0 ∧
    TLBEntry.asid e = 1 ∧ TLBEntry.vmid e = 0 ∧
    TLBEntry.page_size e = SIZE_4KB ∧
    TLBEntry.pa e = physical_addr r ∧
    TLBEntry.memory_type e = memory_type r ∧
    TLBEntry.permission e = permission r ∧
    TLBEntry.cacheable e = cacheable r ∧
    TLBEntry.shareable e = shareable r.
Proof.
  apply (translate_miss_installs_4k (SimpleMemoryModel.memory_read mem_block)
           smmu_ready 0x12345 0 1 0).
  - vm_compute. reflexivity.
  - vm_compute. reflexivity.
  - vm_compute. reflexivity.
Defined.

(** The walk of the witness ends at a level-1 block, a 2 MiB region for
    the walker, and the entry is filed as a 4 KiB page all the same. *)
Example translate_block_filed_as_4k :
  let mem := SimpleMemoryModel.memory_read mem_block in
  let s' := fst (SMMU.translate mem smmu_ready 0x12345 0 1 0) in
  PageTableWalker.translate_reads mem 0x12345 0x1000 12 48 STAGE1
  = ({| success := true; physical_addr := 0x40012345; memory_type := NORMAL_WB;
        permission := READ_WRITE; cacheable := true; shareable := false;
        fault_reason := "" |}, [0x1000; 0x2000]) ∧
  PageTableWalker.get_page_size 1 12 = SIZE_2MB ∧
  TLBEntry.page_size <$> (TLB.entries_ (SMMU.tlb_ s') !! (0x12000, 0, 1, 0)) = Some SIZE_4KB ∧
  TLB.lru_list_ (SMMU.tlb_ s') = [(0x12000, 0, 1, 0)].
Proof. vm_compute. repeat split. Qed.

(** C1.  If [translate] succeeds and the same request is made again on
    the state it left, the second call is a cache hit: it returns the
    same result (address, memory type, permission, cacheable, shareable),
    [tlb_hits] is incremented, and neither [page_table_walks] nor
    [tlb_misses] changes. *)
Theorem translate_twice_hits mem (s : SMMU.t) va sid asid vmid s1 r1 s2 r2 :
  SMMU.translate mem s va sid asid vmid = (s1, r1) ->
  success r1 = true ->
  SMMU.translate mem s1 va sid asid vmid = (s2, r2) ->
  r2 = r1 ∧
  Statistics.tlb_hits (SMMU.stats_ s2) = u64 (Statistics.tlb_hits (SMMU.stats_ s1) + 1) ∧
  Statistics.page_table_walks (SMMU.stats_ s2)
  = Statistics.page_table_walks (SMMU.stats_ s1) ∧
  Statistics.tlb_misses (SMMU.stats_ s2) = Statistics.tlb_misses (SMMU.stats_ s1).
Proof.
  intros Hfirst Hok Hsecond.
  pose proof (translate_enabled _ _ _ _ _ _ _ _ Hfirst Hok) as Hen.
  assert (Hhit : SMMU.enabled_ s1 = true ∧
                 ∃ e, snd (TLB.lookup (SMMU.tlb_ s1) va sid asid vmid) = Some e ∧
                      r1 = {| success := true; physical_addr := TLBEntry.pa e;
                              memory_type := TLBEntry.memory_type e;
                              permission := TLBEntry.permission e;
                              cacheable := TLBEntry.cacheable e;
                              shareable := TLBEntry.shareable e;
                              fault_reason := "" |}).
  { destruct (snd (TLB.lookup (SMMU.tlb_ s) va sid asid vmid)) as [e|] eqn:Hprobe.
    - rewrite (translate_hit mem s va sid asid vmid e Hen Hprobe) in Hfirst.
      injection Hfirst as <- <-. cbn [SMMU.enabled_ SMMU.tlb_ SMMU.set_stats SMMU.set_tlb].
      split; [exact Hen|]. exists e. split; [|reflexivity].
      by rewrite lookup_again.
    - destruct (translate_miss_success _ _ _ _ _ _ _ _ Hfirst Hok Hprobe)
        as (Hreason & Hen1 & entry & Htlb & Hva & Hsid & Hasid & Hvmid & Hps
            & Hpa & Hmt & Hperm & Hc & Hsh).
      split; [exact Hen1|].
      exists (TLBEntry.with_timestamp entry
                (TLB.timestamp_counter_ (fst (TLB.lookup (SMMU.tlb_ s) va sid asid vmid)))).
      split.
      + rewrite Htlb. apply (lookup_after_insert (SMMU.tlb_ s)); [exact Hprobe | |].
        * apply lookup_loop_entries.
        * unfold entry_key. by rewrite Hva, Hsid, Hasid, Hvmid, Hps.
      + destruct r1 as [ok pa mt perm c sh reason]. cbn in *. congruence. }
  destruct Hhit as (Hen1 & e & Hprobe1 & ->).
  rewrite (translate_hit mem s1 va sid asid vmid e Hen1 Hprobe1) in Hsecond.
  injection Hsecond as <- <-. repeat split.
Qed.

Lemma translate_twice_hits_witness :
  let mem := SimpleMemoryModel.memory_read mem_pages in
  let s1 := fst (SMMU.translate mem smmu_ready 0x1000 0 1 0) in
  let r1 := snd (SMMU.translate mem smmu_ready 0x1000 0 1 0) in
  let s2 := fst (SMMU.translate mem s1 0x1000 0 1 0) in
  let r2 := snd (SMMU.translate mem s1 0x1000 0 1 0) in
  r2 = r1 ∧
  Statistics.tlb_hits (SMMU.stats_ s2) = u64 (Statistics.tlb_hits (SMMU.stats_ s1) + 1) ∧
  Statistics.page_table_walks (SMMU.stats_ s2)
  = Statistics.page_table_walks (SMMU.stats_ s1) ∧
  Statistics.tlb_misses (SMMU.stats_ s2) = Statistics.tlb_misses (SMMU.stats_ s1).
Proof.
  apply (translate_twice_hits (SimpleMemoryModel.memory_read mem_pages)
           smmu_ready 0x1000 0 1 0).
  - vm_compute. reflexivity.
  - vm_compute. reflexivity.
  - vm_compute. reflexivity.
Defined.

(** Scenarios S1 and S2 of the specification. *)
Example translate_basic_then_hit :
  let mem := SimpleMemoryModel.memory_read mem_pages in
  let '(s1, r1) := SMMU.translate mem smmu_ready 0x1000 0 1 0 in
  let '(s2, r2) := SMMU.translate mem s1 0x1000 0 1 0 in
  r1 = {| success := true; physical_addr := 0x101000; memory_type := NORMAL_WB;
          permission := READ_WRITE; cacheable := true; shareable := false;
          fault_reason := "" |} ∧
  r2 = r1 ∧
  Statistics.page_table_walks (SMMU.stats_ s1) = 1 ∧
  Statistics.tlb_hits (SMMU.stats_ s1) = 0 ∧
  Statistics.page_table_walks (SMMU.stats_ s2) = 1 ∧
  Statistics.tlb_hits (SMMU.stats_ s2) = 1.
Proof. vm_compute. repeat split. Qed.

(** * Further properties of the code *)

(** ** The translation cache: page bases *)

Lemma land_page_mask (va n : Z) :
  0 <= n -> 0 <= va < two64 ->
  Z.land va (u64 (Z.lnot (2 ^ n - 1))) = va - va mod 2 ^ n.
Proof.
  intros Hn Hva. unfold u64, two64 in *.
  rewrite <- (Z.land_ones _ 64) by lia.
  rewrite Z.land_assoc, (Z.land_comm va), <- Z.land_assoc.
  rewrite (Z.land_ones va 64) by lia. rewrite (Z.mod_small va) by lia.
  replace (2 ^ n - 1) with (Z.ones n) by (rewrite Z.ones_equiv; lia).
  rewrite Z.land_comm, <- Z.ldiff_land, Z.ldiff_ones_r by lia.
  rewrite Z.shiftl_mul_pow2, Z.shiftr_div_pow2 by lia.
  pose proof (Z.div_mod va (2 ^ n) ltac:(lia)). lia.
Qed.

Lemma get_page_base_sub_mod (va : Z) (p : PageSize) :
  0 <= va < two64 ->
  TLB.get_page_base va p = va - va mod page_size_value p.
Proof.
  intros Hva. destruct (page_offset_ones va p) as (n & Hn & Hpow & _).
  unfold TLB.get_page_base. rewrite Hpow. apply land_page_mask; lia.
Qed.

(** [get_page_base] rounds a 64-bit address down to a multiple of the
    page size: the result is [va] minus its offset in the page. *)
Theorem get_page_base_round_down (va : Z) (p : PageSize) :
  0 <= va < two64 ->
  TLB.get_page_base va p = va - va mod page_size_value p ∧
  TLB.get_page_base va p mod page_size_value p = 0 ∧
  TLB.get_page_base va p <= va < TLB.get_page_base va p + page_size_value p ∧
  TLB.get_page_base (TLB.get_page_base va p) p = TLB.get_page_base va p.
Proof.
  intros Hva.
  destruct (page_offset_ones va p) as (n & Hn & Hpow & _).
  pose proof (λ a, get_page_base_sub_mod a p) as Hbase.
  assert (Hpos : 0 < page_size_value p) by (rewrite Hpow; apply Z.pow_pos_nonneg; lia).
  pose proof (Z.mod_pos_bound va (page_size_value p) Hpos) as Hmod.
  pose proof (Z.mod_le va (page_size_value p) ltac:(lia) Hpos) as Hle.
  rewrite (Hbase va Hva).
  assert (Hdiv : (va - va mod page_size_value p) mod page_size_value p = 0).
  { rewrite Zminus_mod_idemp_r, Z.sub_diag. apply Z.mod_0_l. lia. }
  split; [done|]. split; [exact Hdiv|]. split; [lia|].
  rewrite Hbase by lia. rewrite Hdiv. lia.
Qed.

Lemma get_page_base_round_down_witness :
  TLB.get_page_base 0x12345 SIZE_2MB = 0x12345 - 0x12345 mod page_size_value SIZE_2MB ∧
  TLB.get_page_base 0x12345 SIZE_2MB mod page_size_value SIZE_2MB = 0 ∧
  TLB.get_page_base 0x12345 SIZE_2MB <= 0x12345
  < TLB.get_page_base 0x12345 SIZE_2MB + page_size_value SIZE_2MB ∧
  TLB.get_page_base (TLB.get_page_base 0x12345 SIZE_2MB) SIZE_2MB
  = TLB.get_page_base 0x12345 SIZE_2MB.
Proof. apply (get_page_base_round_down 0x12345 SIZE_2MB). vm_compute. split; [discriminate|reflexivity]. Defined.

(** ** The translation cache: invariants of every reachable cache *)

Lemma entry_key_with_timestamp e ts :
  entry_key (TLBEntry.with_timestamp e ts) = entry_key e.
Proof. reflexivity. Qed.

Lemma evict_lru_entries_sub (tlb : TLB.t) (k : Z * Z * Z * Z) e :
  TLB.entries_ (TLB.evict_lru tlb) !! k = Some e -> TLB.entries_ tlb !! k = Some e.
Proof.
  unfold TLB.evict_lru. destruct (last _) as [x|]; [|done].
  cbn [TLB.entries_]. by intros [_ ?]%lookup_delete_Some.
Qed.

Lemma insert_keyed tlb entry : tlb_keyed tlb -> tlb_keyed (TLB.insert tlb entry).
Proof.
  intros Hk k e. unfold TLB.insert. fold (entry_key entry). cbn [TLB.entries_].
  destruct (decide (k = entry_key entry)) as [-> | Hne].
  - rewrite lookup_insert_eq. by intros [= <-].
  - rewrite lookup_insert_ne by done.
    destruct (TLB.entries_ tlb !! entry_key entry); [apply Hk|].
    destruct (_ <=? _); [|apply Hk].
    intros He%evict_lru_entries_sub. by apply Hk.
Qed.

Lemma erase_if_keyed hit tlb : tlb_keyed tlb -> tlb_keyed (TLB.erase_if hit tlb).
Proof.
  intros Hk k e. unfold TLB.erase_if. cbn [TLB.entries_].
  intros [He _]%map_lookup_filter_Some. by apply Hk.
Qed.

Lemma invalidate_by_va_keyed tlb va asid :
  tlb_keyed tlb -> tlb_keyed (TLB.invalidate_by_va tlb va asid).
Proof.
  unfold TLB.invalidate_by_va. generalize TLB.probe_sizes. intros sizes. revert tlb.
  induction sizes as [|ps sizes IH]; intros tlb Hk; cbn [foldl]; [done|].
  apply IH. by apply erase_if_keyed.
Qed.

Lemma lookup_keyed tlb va sid asid vmid :
  tlb_keyed tlb -> tlb_keyed (fst (TLB.lookup tlb va sid asid vmid)).
Proof.
  intros Hk k e. unfold TLB.lookup.
  rewrite (proj1 (lookup_loop_entries _ _ _ _ _ _)). apply Hk.
Qed.

Lemma tlb_step_keyed tlb op : tlb_keyed tlb -> tlb_keyed (tlb_step tlb op).
Proof.
  intros Hk. destruct op; unfold tlb_step.
  - by apply lookup_keyed.
  - by apply insert_keyed.
  - intros k e. cbn. by rewrite lookup_empty.
  - by apply erase_if_keyed.
  - by apply erase_if_keyed.
  - by apply invalidate_by_va_keyed.
  - by apply erase_if_keyed.
Qed.

Lemma tlb_run_preserves (ops : list tlb_op) (tlb : TLB.t) :
  tlb_consistent tlb -> tlb_keyed tlb ->
  tlb_consistent (tlb_run tlb ops) ∧ tlb_keyed (tlb_run tlb ops) ∧
  TLB.capacity_ (tlb_run tlb ops) = TLB.capacity_ tlb.
Proof.
  revert tlb. induction ops as [|op ops IH]; intros tlb Hc Hk; cbn [tlb_run foldl]; [done|].
  destruct (IH (tlb_step tlb op)) as (? & ? & Hcap);
    [by apply tlb_step_consistent | by apply tlb_step_keyed|].
  split; [done|]. split; [done|]. unfold tlb_run in Hcap.
  by rewrite Hcap, tlb_step_capacity.
Qed.

Lemma tlb_run_reachable (N : Z) (ops : list tlb_op) :
  tlb_consistent (tlb_run (TLB.create N) ops) ∧ tlb_keyed (tlb_run (TLB.create N) ops) ∧
  TLB.capacity_ (tlb_run (TLB.create N) ops) = N.
Proof.
  apply (tlb_run_preserves ops (TLB.create N)).
  - apply tlb_consistent_create.
  - intros k e. cbn. by rewrite lookup_empty.
Qed.

(** Whatever operations are run on a new cache, the recency list has no
    duplicates and holds exactly the keys of the map (so the two have the
    same size), every entry sits under the key computed from its own
    fields, and the capacity is the one given at construction. *)
Theorem tlb_run_invariant (N : Z) (ops : list tlb_op) :
  let tlb := tlb_run (TLB.create N) ops in
  NoDup (TLB.lru_list_ tlb) ∧
  (∀ k, k ∈ TLB.lru_list_ tlb ↔ is_Some (TLB.entries_ tlb !! k)) ∧
  TLB.size tlb = length (TLB.lru_list_ tlb) ∧
  (∀ k e, TLB.entries_ tlb !! k = Some e -> k = entry_key e) ∧
  TLB.capacity_ tlb = N.
Proof.
  destruct (tlb_run_reachable N ops) as (Hc & Hk & Hcap).
  cbn zeta. pose proof (tlb_consistent_size _ Hc). destruct Hc as [Hnd Hdom].
  repeat split; try done; apply Hdom.
Qed.

(** ** The translation cache: invalidation and lookup *)

Lemma lookup_loop_snd_probe_ext sizes (t1 t2 : TLB.t) va sid asid vmid :
  (∀ ps, ps ∈ sizes ->
     TLB.entries_ t1 !! TLB.make_key va ps sid asid vmid
     = TLB.entries_ t2 !! TLB.make_key va ps sid asid vmid) ->
  snd (TLB.lookup_loop sizes t1 va sid asid vmid)
  = snd (TLB.lookup_loop sizes t2 va sid asid vmid).
Proof.
  induction sizes as [|p sizes IH]; intros Hext; cbn [TLB.lookup_loop]; [done|].
  rewrite (Hext p) by (apply elem_of_cons; by left).
  destruct (TLB.entries_ t2 !! _); [done|].
  apply IH. intros ps Hps. apply Hext. apply elem_of_cons. by right.
Qed.

Lemma lookup_loop_all_None sizes (tlb : TLB.t) va sid asid vmid :
  (∀ ps, ps ∈ sizes -> TLB.entries_ tlb !! TLB.make_key va ps sid asid vmid = None) ->
  snd (TLB.lookup_loop sizes tlb va sid asid vmid) = None.
Proof.
  induction sizes as [|p sizes IH]; intros Hnone; cbn [TLB.lookup_loop]; [done|].
  rewrite (Hnone p) by (apply elem_of_cons; by left).
  apply IH. intros ps Hps. apply Hnone. apply elem_of_cons. by right.
Qed.

Lemma lookup_loop_is_Some sizes (tlb : TLB.t) va sid asid vmid ps :
  ps ∈ sizes -> is_Some (TLB.entries_ tlb !! TLB.make_key va ps sid asid vmid) ->
  is_Some (snd (TLB.lookup_loop sizes tlb va sid asid vmid)).
Proof.
  induction sizes as [|p sizes IH]; intros Hin Hsome; [by apply elem_of_nil in Hin|].
  cbn [TLB.lookup_loop].
  destruct (TLB.entries_ tlb !! TLB.make_key va p sid asid vmid) as [e|] eqn:Hp; [by eexists|].
  apply elem_of_cons in Hin as [-> | Hin]; [|by apply IH].
  rewrite Hp in Hsome. by destruct Hsome.
Qed.

(** After erasing the entries selected by [hit], a request misses as soon
    as [hit] selects every entry that could sit under one of its keys. *)
Lemma erase_if_lookup_miss hit (tlb : TLB.t) va sid asid vmid :
  tlb_keyed tlb ->
  (∀ ps e, entry_key e = TLB.make_key va ps sid asid vmid -> hit e = true) ->
  snd (TLB.lookup (TLB.erase_if hit tlb) va sid asid vmid) = None.
Proof.
  intros Hk Hhit. unfold TLB.lookup. apply lookup_loop_all_None. intros ps _.
  unfold TLB.erase_if. cbn [TLB.entries_].
  apply map_lookup_filter_None. right. intros e He. cbn.
  rewrite (Hhit ps e); [done|]. symmetry. by apply Hk.
Qed.

Lemma tlb_run_keyed N ops : tlb_keyed (tlb_run (TLB.create N) ops).
Proof. apply (tlb_run_reachable N ops). Qed.

(** After [invalidate_by_asid] no request with that ASID hits, on any
    cache that operations have produced. *)
Theorem invalidate_by_asid_then_miss (N : Z) (ops : list tlb_op) va sid asid vmid :
  snd (TLB.lookup (TLB.invalidate_by_asid (tlb_run (TLB.create N) ops) asid)
                  va sid asid vmid) = None.
Proof.
  apply erase_if_lookup_miss; [apply tlb_run_keyed|].
  intros ps e [= _ _ -> _]. apply Z.eqb_refl.
Qed.

(** The same for [invalidate_by_vmid] and [invalidate_by_stream]. *)
Theorem invalidate_by_vmid_stream_then_miss (N : Z) (ops : list tlb_op) va sid asid vmid :
  snd (TLB.lookup (TLB.invalidate_by_vmid (tlb_run (TLB.create N) ops) vmid)
                  va sid asid vmid) = None ∧
  snd (TLB.lookup (TLB.invalidate_by_stream (tlb_run (TLB.create N) ops) sid)
                  va sid asid vmid) = None.
Proof.
  split; (apply erase_if_lookup_miss; [apply tlb_run_keyed|]).
  - intros ps e [= _ _ _ ->]. apply Z.eqb_refl.
  - intros ps e [= _ -> _ _]. apply Z.eqb_refl.
Qed.

Lemma invalidate_by_va_entries sizes (tlb : TLB.t) va asid (k : Z * Z * Z * Z) e :
  TLB.entries_
    (foldl (λ tlb' page_size,
              let va_base := TLB.get_page_base va page_size in
              TLB.erase_if (λ e, (TLBEntry.asid e =? asid) &&
                                 (TLB.get_page_base (TLBEntry.va e) (TLBEntry.page_size e)
                                  =? va_base)) tlb')
           tlb sizes) !! k = Some e ->
  TLB.entries_ tlb !! k = Some e ∧
  ∀ ps, ps ∈ sizes ->
    (TLBEntry.asid e =? asid) &&
    (TLB.get_page_base (TLBEntry.va e) (TLBEntry.page_size e) =? TLB.get_page_base va ps)
    = false.
Proof.
  revert tlb. induction sizes as [|p sizes IH]; intros tlb; cbn [foldl].
  - intros He. split; [done|]. intros ps Hps. by apply elem_of_nil in Hps.
  - intros [He Hrest]%IH. unfold TLB.erase_if in He. cbn [TLB.entries_] in He.
    apply map_lookup_filter_Some in He as [He Hp]. cbn in Hp.
    split; [done|]. intros ps [-> | Hps]%elem_of_cons; [exact Hp | by apply Hrest].
Qed.

(** After [invalidate_by_va (va, asid)] a lookup of [va] under that ASID
    misses for every stream and VMID: each key the lookup probes is the
    key of an entry the invalidation erases. *)
Theorem invalidate_by_va_then_miss (N : Z) (ops : list tlb_op) va sid asid vmid :
  snd (TLB.lookup (TLB.invalidate_by_va (tlb_run (TLB.create N) ops) va asid)
                  va sid asid vmid) = None.
Proof.
  unfold TLB.lookup. apply lookup_loop_all_None. intros ps Hps.
  destruct (TLB.entries_ _ !! _) as [e|] eqn:He; [|done]. exfalso.
  unfold TLB.invalidate_by_va in He.
  apply invalidate_by_va_entries in He as [He Hkept].
  apply tlb_run_keyed in He. specialize (Hkept ps Hps).
  injection He as Hbase _ Hasid _.
  rewrite <- Hasid, <- Hbase, !Z.eqb_refl in Hkept. discriminate.
Qed.

(** [invalidate_by_asid] is selective: a request under another ASID gets
    the same answer from the cache before and after. *)
Theorem invalidate_by_asid_other (N : Z) (ops : list tlb_op) va sid asid asid' vmid :
  asid' ≠ asid ->
  snd (TLB.lookup (TLB.invalidate_by_asid (tlb_run (TLB.create N) ops) asid)
                  va sid asid' vmid)
  = snd (TLB.lookup (tlb_run (TLB.create N) ops) va sid asid' vmid).
Proof.
  intros Hne. unfold TLB.lookup. apply lookup_loop_snd_probe_ext. intros ps _.
  unfold TLB.invalidate_by_asid, TLB.erase_if. cbn [TLB.entries_].
  destruct (TLB.entries_ (tlb_run (TLB.create N) ops) !! _) as [e|] eqn:He.
  - apply map_lookup_filter_Some. split; [done|]. cbn.
    apply tlb_run_keyed in He. injection He as _ _ Hasid _.
    apply Z.eqb_neq. congruence.
  - apply map_lookup_filter_None. by left.
Qed.

Lemma invalidate_by_asid_other_witness :
  snd (TLB.lookup (TLB.invalidate_by_asid (tlb_run (TLB.create 4) sample_ops) 1)
                  0x2000 0 2 0)
  = snd (TLB.lookup (tlb_run (TLB.create 4) sample_ops) 0x2000 0 2 0).
Proof. apply (invalidate_by_asid_other 4 sample_ops 0x2000 0 1 2 0). discriminate. Defined.

(** ** The translation cache: insertion and lookup *)

(** An entry whose page size is one of the sizes [lookup] probes is found
    again: a lookup of its address and identifiers right after its
    insertion hits, and when the same lookup missed before the insertion
    it returns the entry itself, stamped with the insertion counter. *)
Theorem insert_then_lookup (tlb : TLB.t) (e : TLBEntry.t) :
  TLBEntry.page_size e ∈ TLB.probe_sizes ->
  is_Some (snd (TLB.lookup (TLB.insert tlb e) (TLBEntry.va e) (TLBEntry.stream_id e)
                           (TLBEntry.asid e) (TLBEntry.vmid e))) ∧
  (snd (TLB.lookup tlb (TLBEntry.va e) (TLBEntry.stream_id e)
                   (TLBEntry.asid e) (TLBEntry.vmid e)) = None ->
   snd (TLB.lookup (TLB.insert tlb e) (TLBEntry.va e) (TLBEntry.stream_id e)
                   (TLBEntry.asid e) (TLBEntry.vmid e))
   = Some (TLBEntry.with_timestamp e (TLB.timestamp_counter_ tlb))).
Proof.
  intros Hps. split.
  - unfold TLB.lookup. apply (lookup_loop_is_Some _ _ _ _ _ _ _ Hps).
    fold (entry_key e). rewrite insert_lookup_key. by eexists.
  - intros Hmiss. unfold TLB.lookup in *.
    apply (lookup_loop_found _ _ _ _ _ _ (entry_key e)).
    + intros ps Hin. destruct (decide (TLB.make_key _ ps _ _ _ = entry_key e)) as [-> | Hne].
      * apply insert_lookup_key.
      * apply insert_entries_other; [done|].
        by apply (lookup_loop_None _ _ _ _ _ _ Hmiss).
    + by exists (TLBEntry.page_size e).
Qed.

Lemma insert_then_lookup_witness :
  let tlb := tlb_run (TLB.create 4) sample_ops in
  let e := sample_entry 0x345678 1 SIZE_2MB in
  is_Some (snd (TLB.lookup (TLB.insert tlb e) (TLBEntry.va e) (TLBEntry.stream_id e)
                           (TLBEntry.asid e) (TLBEntry.vmid e))) ∧
  (snd (TLB.lookup tlb (TLBEntry.va e) (TLBEntry.stream_id e)
                   (TLBEntry.asid e) (TLBEntry.vmid e)) = None ->
   snd (TLB.lookup (TLB.insert tlb e) (TLBEntry.va e) (TLBEntry.stream_id e)
                   (TLBEntry.asid e) (TLBEntry.vmid e))
   = Some (TLBEntry.with_timestamp e (TLB.timestamp_counter_ tlb))).
Proof.
  apply (insert_then_lookup (tlb_run (TLB.create 4) sample_ops)
           (sample_entry 0x345678 1 SIZE_2MB)).
  unfold TLB.probe_sizes. cbn. apply elem_of_cons. right. apply elem_of_cons. by left.
Defined.

(** [lookup] does not probe the 16 KiB size: an entry inserted with
    [page_size = SIZE_16KB] into a new cache is not found by a lookup of
    its own address unless its 16 KiB base happens to be one of the four
    probed bases; it is missed whenever the address is neither in the
    first 4 KiB of its 16 KiB page nor in the first 16 KiB of its 64 KiB
    page. *)
Theorem lookup_misses_16k_entry (N : Z) (e : TLBEntry.t) :
  TLBEntry.page_size e = SIZE_16KB ->
  0 <= TLBEntry.va e < two64 ->
  0x1000 <= TLBEntry.va e mod 0x4000 ->
  0x4000 <= TLBEntry.va e mod 0x10000 ->
  snd (TLB.lookup (TLB.insert (TLB.create N) e) (TLBEntry.va e) (TLBEntry.stream_id e)
                  (TLBEntry.asid e) (TLBEntry.vmid e)) = None.
Proof.
  intros Hps Hva H4 H64. unfold TLB.lookup. apply lookup_loop_all_None. intros ps Hin.
  apply insert_entries_other; [|apply lookup_empty].
  unfold entry_key, TLB.make_key. rewrite Hps. intros [= Hbase].
  rewrite (get_page_base_sub_mod _ ps Hva) in Hbase.
  rewrite (get_page_base_sub_mod _ SIZE_16KB Hva) in Hbase.
  unfold TLB.probe_sizes in Hin.
  repeat (apply elem_of_cons in Hin as [-> | Hin]); [| | | |by apply elem_of_nil in Hin];
    cbn [page_size_value] in Hbase; revert Hbase H4 H64;
    generalize (TLBEntry.va e); clear; intros va; Z.div_mod_to_equations; lia.
Qed.

Lemma lookup_misses_16k_entry_witness :
  snd (TLB.lookup (TLB.insert (TLB.create 8) (sample_entry 0x5000 1 SIZE_16KB))
                  0x5000 0 1 0) = None.
Proof.
  apply (lookup_misses_16k_entry 8 (sample_entry 0x5000 1 SIZE_16KB)).
  - reflexivity.
  - vm_compute. split; [discriminate|reflexivity].
  - vm_compute. discriminate.
  - vm_compute. discriminate.
Defined.

(** An entry that a lookup has just hit survives the next insertion,
    provided the cache has room for at least two entries: the same lookup
    hits again after any one [insert]. *)
Theorem hit_survives_next_insert (N : Z) (ops : list tlb_op) va sid asid vmid
    (e : TLBEntry.t) :
  2 <= N ->
  is_Some (snd (TLB.lookup (tlb_run (TLB.create N) ops) va sid asid vmid)) ->
  is_Some (snd (TLB.lookup
                  (TLB.insert (fst (TLB.lookup (tlb_run (TLB.create N) ops) va sid asid vmid)) e)
                  va sid asid vmid)).
Proof.
  intros HN Hhit.
  destruct (tlb_run_reachable N ops) as (Hc & _ & Hcap).
  pose proof (tlb_consistent_size _ Hc) as Hsize. destruct Hc as [Hnd Hdom].
  set (tlb := tlb_run (TLB.create N) ops) in *. cbn zeta in *.
  unfold TLB.lookup in *. revert Hhit. generalize TLB.probe_sizes. intros sizes.
  induction sizes as [|p sizes IH]; cbn [TLB.lookup_loop]; [by intros [? ?]|].
  destruct (TLB.entries_ tlb !! TLB.make_key va p sid asid vmid) as [e0|] eqn:Hp.
  - intros _. cbn [fst].
    set (key := TLB.make_key va p sid asid vmid) in *.
    set (tlb' := TLB.mk _ _ _ _ _ _).
    enough (Hkeep : is_Some (TLB.entries_ (TLB.insert tlb' e) !! key)).
    { destruct Hkeep as [e1 He1]. rewrite He1. by eexists. }
    unfold TLB.insert. fold (entry_key e). cbn [TLB.entries_].
    destruct (decide (entry_key e = key)) as [-> | Hne];
      [rewrite lookup_insert_eq; by eexists|].
    rewrite lookup_insert_ne by done.
    destruct (TLB.entries_ tlb' !! entry_key e); [by eexists|].
    destruct (Z.leb_spec (TLB.capacity_ tlb') (Z.of_nat (size (TLB.entries_ tlb'))))
      as [Hfull|_]; [|by eexists].
    unfold TLB.evict_lru.
    destruct (last (TLB.lru_list_ tlb')) as [x|] eqn:Hlast; [|by eexists].
    cbn [TLB.entries_]. subst tlb'. cbn [TLB.entries_ TLB.lru_list_ TLB.capacity_] in *.
    rewrite lookup_delete_ne; [by eexists|]. intros ->.
    (* the hit key is at the head of the list; it is also the last element only
       when the list has length one *)
    destruct (TLB.list_remove key (TLB.lru_list_ tlb)) as [|y rest] eqn:Hrest.
    + assert (Hlen : (length (TLB.lru_list_ tlb) <= 1)%nat).
      { assert (Hall : ∀ k, k ∈ TLB.lru_list_ tlb -> k = key).
        { intros k Hk. destruct (decide (k = key)) as [|Hkne]; [done|].
          assert (Hin : k ∈ TLB.list_remove key (TLB.lru_list_ tlb))
            by (apply list_remove_elem_of; done).
          rewrite Hrest in Hin. by apply elem_of_nil in Hin. }
        destruct (TLB.lru_list_ tlb) as [|a [|b l]]; cbn; [lia | lia |].
        exfalso. apply NoDup_cons in Hnd as [Hnotin _]. apply Hnotin.
        rewrite (Hall a), (Hall b); [apply elem_of_cons; by left | |];
          [apply elem_of_cons; right; apply elem_of_cons; by left
          | apply elem_of_cons; by left]. }
      unfold TLB.size in Hsize. lia.
    + assert (Hin : key ∈ TLB.list_remove key (TLB.lru_list_ tlb)).
      { rewrite Hrest. change (key :: y :: rest) with ([key] ++ y :: rest) in Hlast.
        rewrite last_app_cons in Hlast. apply last_Some in Hlast as [l' Hl'].
        rewrite Hl'. apply elem_of_app. right. apply elem_of_cons. by left. }
      apply list_remove_elem_of in Hin as [Hne' _]. by apply Hne'.
  - intros Hrest. specialize (IH Hrest).
    (* the earlier probe misses after the insertion too, or hits: either way a hit *)
    destruct (TLB.entries_ (TLB.insert (fst (TLB.lookup_loop sizes tlb va sid asid vmid)) e)
                !! TLB.make_key va p sid asid vmid); [by eexists | exact IH].
Qed.

Lemma hit_survives_next_insert_witness :
  is_Some (snd (TLB.lookup
                  (TLB.insert (fst (TLB.lookup (tlb_run (TLB.create 2) sample_ops) 0x2000 0 2 0))
                              (sample_entry 0x3000 1 SIZE_4KB))
                  0x2000 0 2 0)).
Proof.
  apply (hit_survives_next_insert 2 sample_ops 0x2000 0 2 0 (sample_entry 0x3000 1 SIZE_4KB)).
  - lia.
  - vm_compute. by eexists.
Defined.

(** ** The page-table walker: outcomes, reads and decoding *)

Lemma parse_descriptor_table_level (desc level g : Z) :
  PageTableDescriptor.is_table (PageTableWalker.parse_descriptor desc level g) = true ->
  level < 3.
Proof.
  unfold PageTableWalker.parse_descriptor.
  destruct (Z.land desc 1 =? 0); cbn [PageTableDescriptor.is_table PageTableDescriptor.default];
    [discriminate|].
  destruct (Z.ltb_spec level 3); [done | discriminate].
Qed.

Lemma walk_loop_outcome mem ctx (remaining : nat) :
  ∀ table_base level,
    Z.of_nat remaining = 4 - level -> (1 <= remaining)%nat ->
    let r := fst (PageTableWalker.walk_loop mem remaining ctx table_base level) in
    (success r = true ∧ fault_reason r = "") ∨
    (r = fault "Failed to read descriptor") ∨
    (r = fault "Translation fault: invalid descriptor").
Proof.
  induction remaining as [|n IH]; intros tb level Hrem Hpos; [lia|].
  cbn [PageTableWalker.walk_loop].
  destruct (PageTableWalker.read_descriptor mem _) as [dv|]; [|right; by left].
  destruct (PageTableDescriptor.valid _); cbn [negb]; [|right; by right].
  destruct (PageTableDescriptor.is_table _) eqn:Htable; cbn [negb]; [|left; done].
  apply parse_descriptor_table_level in Htable.
  specialize (IH (PageTableDescriptor.address
                    (PageTableWalker.parse_descriptor dv level
                       (PageTableWalker.ctx_granule_size ctx))) (level + 1)
                 ltac:(lia) ltac:(lia)).
  destruct (PageTableWalker.walk_loop mem n ctx _ (level + 1)) as [r reads]. exact IH.
Qed.

(** The walker's [translate] ends in one of four ways: a success without
    reason, or the default failure result with one of three reasons.  The
    reason "Translation fault: exceeded max level" is never returned: a
    level-3 descriptor is never a table, so the loop always returns from
    inside. *)
Theorem walker_translate_outcome mem va ttb g ips stage :
  let r := PageTableWalker.translate mem va ttb g ips stage in
  ((success r = true ∧ fault_reason r = "") ∨
   r = fault "Invalid granule size" ∨
   r = fault "Failed to read descriptor" ∨
   r = fault "Translation fault: invalid descriptor") ∧
  fault_reason r ≠ "Translation fault: exceeded max level".
Proof.
  cbn zeta.
  assert (Hcases :
    (success (PageTableWalker.translate mem va ttb g ips stage) = true ∧
     fault_reason (PageTableWalker.translate mem va ttb g ips stage) = "") ∨
    PageTableWalker.translate mem va ttb g ips stage = fault "Invalid granule size" ∨
    PageTableWalker.translate mem va ttb g ips stage = fault "Failed to read descriptor" ∨
    PageTableWalker.translate mem va ttb g ips stage
    = fault "Translation fault: invalid descriptor").
  { unfold PageTableWalker.translate, PageTableWalker.translate_reads,
      PageTableWalker.walk_table.
    repeat (destruct (g =? _);
            [match goal with
             | |- context [PageTableWalker.walk_loop mem ?n ?c ?tb ?l] =>
               destruct (walk_loop_outcome mem c n tb l) as [H | [H | H]];
               [reflexivity | cbn; lia | by left | right; right; by left
               | right; right; by right]
             end|]).
    right. by left. }
  split; [exact Hcases|].
  destruct Hcases as [[_ ->] | [-> | [-> | ->]]]; discriminate.
Qed.

Lemma walk_loop_reads mem ctx (remaining : nat) :
  ∀ table_base level,
    (1 <= remaining)%nat ->
    let reads := snd (PageTableWalker.walk_loop mem remaining ctx table_base level) in
    (1 <= length reads <= remaining)%nat ∧
    head reads = Some (PageTableWalker.get_descriptor_address table_base
                         (PageTableWalker.get_index_bits (PageTableWalker.ctx_va ctx) level
                            (PageTableWalker.ctx_granule_size ctx))
                         (PageTableWalker.ctx_granule_size ctx)).
Proof.
  induction remaining as [|n IH]; intros tb level Hpos; [lia|].
  cbn [PageTableWalker.walk_loop].
  destruct (PageTableWalker.read_descriptor mem _) as [dv|]; [|cbn; split; [lia|done]].
  destruct (PageTableDescriptor.valid _); cbn [negb]; [|cbn; split; [lia|done]].
  destruct (PageTableDescriptor.is_table _) eqn:Htable; cbn [negb];
    [|cbn; split; [lia|done]].
  destruct n as [|n'].
  - cbn. split; [lia|done].
  - specialize (IH (PageTableDescriptor.address
                      (PageTableWalker.parse_descriptor dv level
                         (PageTableWalker.ctx_granule_size ctx))) (level + 1) ltac:(lia)).
    destruct (PageTableWalker.walk_loop mem (S n') ctx _ (level + 1)) as [r reads].
    cbn in *. split; [lia|done].
Qed.

(** With a valid granule the walker reads at least one descriptor and at
    most one per level: four for the 4 KiB and 16 KiB granules, three for
    the 64 KiB granule.  The first read is the entry of the root table
    selected by the index bits of the start level. *)
Theorem walker_reads_bound mem va ttb g ips stage :
  g = 12 ∨ g = 14 ∨ g = 16 ->
  let reads := snd (PageTableWalker.translate_reads mem va ttb g ips stage) in
  1 <= Z.of_nat (length reads) <= 4 - start_level g ∧
  head reads = Some (PageTableWalker.get_descriptor_address ttb
                       (PageTableWalker.get_index_bits va (start_level g) g) g).
Proof.
  intros Hg. unfold PageTableWalker.translate_reads, PageTableWalker.walk_table, start_level.
  destruct Hg as [-> | [-> | ->]]; cbn [Z.eqb Pos.eqb];
    match goal with
    | |- context [PageTableWalker.walk_loop mem ?n ?c ?tb ?l] =>
      destruct (walk_loop_reads mem c n tb l) as [Hlen Hhead]; [cbn; lia|];
      cbn in Hlen, Hhead |- *; split; [lia | exact Hhead]
    end.
Qed.

Lemma walker_reads_bound_witness :
  let reads := snd (PageTableWalker.translate_reads (SimpleMemoryModel.memory_read mem_pages)
                      0x1000 0x1000 12 48 STAGE1) in
  1 <= Z.of_nat (length reads) <= 4 - start_level 12 ∧
  head reads = Some (PageTableWalker.get_descriptor_address 0x1000
                       (PageTableWalker.get_index_bits 0x1000 (start_level 12) 12) 12).
Proof.
  apply (walker_reads_bound (SimpleMemoryModel.memory_read mem_pages)
           0x1000 0x1000 12 48 STAGE1).
  by left.
Defined.

Lemma walk_loop_frame mem1 mem2 ctx (remaining : nat) :
  ∀ table_base level,
    (∀ a, a ∈ snd (PageTableWalker.walk_loop mem1 remaining ctx table_base level) ->
          mem2 a = mem1 a) ->
    PageTableWalker.walk_loop mem2 remaining ctx table_base level
    = PageTableWalker.walk_loop mem1 remaining ctx table_base level.
Proof.
  induction remaining as [|n IH]; intros tb level Hagree; [done|].
  cbn [PageTableWalker.walk_loop] in *. unfold PageTableWalker.read_descriptor in *.
  set (addr := PageTableWalker.get_descriptor_address tb _ _) in *.
  assert (Haddr : mem2 addr = mem1 addr).
  { apply Hagree. destruct (mem1 addr) as [dv|]; [|apply elem_of_cons; by left].
    destruct (negb (PageTableDescriptor.valid _)); [apply elem_of_cons; by left|].
    destruct (negb (PageTableDescriptor.is_table _)); [apply elem_of_cons; by left|].
    destruct (PageTableWalker.walk_loop mem1 n ctx _ _). apply elem_of_cons. by left. }
  rewrite Haddr. destruct (mem1 addr) as [dv|]; [|done].
  destruct (negb (PageTableDescriptor.valid _)); [done|].
  destruct (negb (PageTableDescriptor.is_table _)); [done|].
  rewrite IH; [done|]. intros a Ha. apply Hagree.
  destruct (PageTableWalker.walk_loop mem1 n ctx _ _). apply elem_of_cons. by right.
Qed.

(** The walk depends on memory only through the descriptors it reads: a
    memory that answers the same at the addresses read gives the same
    result and the same reads. *)
Theorem walker_translate_frame mem1 mem2 va ttb g ips stage :
  (∀ a, a ∈ snd (PageTableWalker.translate_reads mem1 va ttb g ips stage) ->
        mem2 a = mem1 a) ->
  PageTableWalker.translate_reads mem2 va ttb g ips stage
  = PageTableWalker.translate_reads mem1 va ttb g ips stage.
Proof.
  unfold PageTableWalker.translate_reads, PageTableWalker.walk_table.
  repeat (destruct (g =? _); [apply walk_loop_frame|]). done.
Qed.

Lemma walker_translate_frame_witness :
  PageTableWalker.translate_reads (SimpleMemoryModel.memory_read mem_pages_more)
    0x1000 0x1000 12 48 STAGE1
  = PageTableWalker.translate_reads (SimpleMemoryModel.memory_read mem_pages)
      0x1000 0x1000 12 48 STAGE1.
Proof.
  apply (walker_translate_frame (SimpleMemoryModel.memory_read mem_pages)
           (SimpleMemoryModel.memory_read mem_pages_more) 0x1000 0x1000 12 48 STAGE1).
  assert (Hreads : snd (PageTableWalker.translate_reads
                          (SimpleMemoryModel.memory_read mem_pages) 0x1000 0x1000 12 48 STAGE1)
                   = [0x1000; 0x2000; 0x3000; 0x4008]) by (vm_compute; reflexivity).
  rewrite Hreads. apply Forall_forall.
  repeat (constructor; [vm_compute; reflexivity|]). constructor.
Defined.

(** Each descriptor read stays inside the table it indexes: for a granule
    of 12, 14 or 16 bits the index is below [2^(g-3)], so the descriptor
    address is the table base plus a multiple of 8 that leaves the eight
    bytes inside the [2^g] bytes after the base. *)
Theorem descriptor_address_in_table (va level g table_base : Z) :
  g = 12 ∨ g = 14 ∨ g = 16 ->
  0 <= table_base -> table_base + 2 ^ g <= two64 ->
  let index := PageTableWalker.get_index_bits va level g in
  let addr := PageTableWalker.get_descriptor_address table_base index g in
  0 <= index < 2 ^ (g - 3) ∧
  addr = table_base + 8 * index ∧
  table_base <= addr ∧ addr + 8 <= table_base + 2 ^ g.
Proof.
  intros Hg Htb Hfit. cbn zeta.
  assert (Hidx : 0 <= PageTableWalker.get_index_bits va level g < 2 ^ (g - 3)).
  { unfold PageTableWalker.get_index_bits.
    destruct Hg as [-> | [-> | ->]];
      (apply land_below_pow2; [lia | vm_compute; split; [discriminate | reflexivity]]). }
  assert (Hpow : 2 ^ g = 8 * 2 ^ (g - 3)).
  { destruct Hg as [-> | [-> | ->]]; reflexivity. }
  unfold PageTableWalker.get_descriptor_address, u64.
  rewrite Z.mod_small by (unfold two64 in *; lia).
  split; [exact Hidx|]. split; lia.
Qed.

Lemma descriptor_address_in_table_witness :
  let index := PageTableWalker.get_index_bits 0x1000 3 12 in
  let addr := PageTableWalker.get_descriptor_address 0x4000 index 12 in
  0 <= index < 2 ^ (12 - 3) ∧
  addr = 0x4000 + 8 * index ∧
  0x4000 <= addr ∧ addr + 8 <= 0x4000 + 2 ^ 12.
Proof.
  apply (descriptor_address_in_table 0x1000 3 12 0x4000).
  - by left.
  - lia.
  - vm_compute. discriminate.
Defined.

Lemma land_3_testbits (d n : Z) :
  0 <= n ->
  Z.land (Z.shiftr d n) 3 = Z.b2z (Z.testbit d n) + 2 * Z.b2z (Z.testbit d (n + 1)).
Proof.
  intros Hn. rewrite !Z.testbit_spec' by lia.
  change 3 with (Z.ones 2). rewrite Z.land_ones, Z.shiftr_div_pow2 by lia.
  rewrite Z.pow_add_r, <- Z.div_div by lia.
  generalize (d / 2 ^ n). intros y. change (2 ^ 2) with 4. change (2 ^ 1) with 2.
  Z.div_mod_to_equations. lia.
Qed.

Lemma land_7_testbits (d n : Z) :
  0 <= n ->
  Z.land (Z.shiftr d n) 7
  = Z.b2z (Z.testbit d n) + 2 * Z.b2z (Z.testbit d (n + 1))
    + 4 * Z.b2z (Z.testbit d (n + 2)).
Proof.
  intros Hn. rewrite !Z.testbit_spec' by lia.
  change 7 with (Z.ones 3). rewrite Z.land_ones, Z.shiftr_div_pow2 by lia.
  replace (n + 2) with (n + 1 + 1) by lia.
  rewrite (Z.pow_add_r 2 (n + 1) 1), <- (Z.div_div d (2 ^ (n + 1))) by lia.
  rewrite (Z.pow_add_r 2 n 1), <- (Z.div_div d (2 ^ n)) by lia.
  generalize (d / 2 ^ n). intros y. change (2 ^ 3) with 8. change (2 ^ 1) with 2.
  Z.div_mod_to_equations. lia.
Qed.

(** The fields of a valid descriptor, bit by bit: the output address is
    bits 47..12 of the word (a multiple of 4096 below 2^48); the permission
    is ReadOnly when bit 7 is set and ReadWrite otherwise, never None or
    WriteOnly; it is shareable when bit 8 or bit 9 is set; the memory type
    is Normal-WriteBack exactly when bit 4 is set, and never Device-nGRE
    or Device-GRE. *)
Theorem parse_descriptor_fields (desc level g : Z) :
  Z.testbit desc 0 = true ->
  let d := PageTableWalker.parse_descriptor desc level g in
  PageTableDescriptor.address d mod 4096 = 0 ∧
  0 <= PageTableDescriptor.address d < 2 ^ 48 ∧
  PageTableDescriptor.ap d = (if Z.testbit desc 7 then READ_ONLY else READ_WRITE) ∧
  PageTableDescriptor.shareable d = Z.testbit desc 8 || Z.testbit desc 9 ∧
  (PageTableDescriptor.mem_attr d = NORMAL_WB ↔ Z.testbit desc 4 = true) ∧
  PageTableDescriptor.mem_attr d ≠ DEVICE_nGRE ∧
  PageTableDescriptor.mem_attr d ≠ DEVICE_GRE.
Proof.
  intros Hv. cbn zeta.
  pose proof (parse_descriptor_address_bound desc level g) as Hbound.
  unfold PageTableWalker.parse_descriptor in *.
  rewrite land_1_bit0, Hv in *. change (Z.b2z true =? 0) with false in *.
  cbn [PageTableDescriptor.address PageTableDescriptor.ap PageTableDescriptor.shareable
       PageTableDescriptor.mem_attr] in *.
  rewrite (land_3_testbits desc 6), (land_3_testbits desc 8), (land_7_testbits desc 2) by lia.
  change (6 + 1) with 7. change (8 + 1) with 9. change (2 + 1) with 3. change (2 + 2) with 4.
  split.
  { rewrite <- (Z.land_ones _ 12) by lia. rewrite <- Z.land_assoc. apply Z.land_0_r. }
  split; [exact Hbound|].
  destruct (Z.testbit desc 6), (Z.testbit desc 7), (Z.testbit desc 8), (Z.testbit desc 9),
    (Z.testbit desc 2), (Z.testbit desc 3), (Z.testbit desc 4); vm_compute;
    repeat split; congruence.
Qed.

Lemma parse_descriptor_fields_witness :
  let d := PageTableWalker.parse_descriptor 0x101413 3 12 in
  PageTableDescriptor.address d mod 4096 = 0 ∧
  0 <= PageTableDescriptor.address d < 2 ^ 48 ∧
  PageTableDescriptor.ap d = (if Z.testbit 0x101413 7 then READ_ONLY else READ_WRITE) ∧
  PageTableDescriptor.shareable d = Z.testbit 0x101413 8 || Z.testbit 0x101413 9 ∧
  (PageTableDescriptor.mem_attr d = NORMAL_WB ↔ Z.testbit 0x101413 4 = true) ∧
  PageTableDescriptor.mem_attr d ≠ DEVICE_nGRE ∧
  PageTableDescriptor.mem_attr d ≠ DEVICE_GRE.
Proof. apply (parse_descriptor_fields 0x101413 3 12). reflexivity. Defined.

(** ** The memory model *)






(** A failed [allocate_page] still advances the allocation pointer, so
    every later request fails as well, however small. *)
Theorem allocate_page_failure_sticky (m : SimpleMemoryModel.t) (size size' : Z) :
  0 < SimpleMemoryModel.next_alloc_ m ->
  0 <= size -> 0 <= size' ->
  SimpleMemoryModel.next_alloc_ m + size + size' < two64 ->
  snd (SimpleMemoryModel.allocate_page m size) = 0 ->
  snd (SimpleMemoryModel.allocate_page (fst (SimpleMemoryModel.allocate_page m size)) size')
  = 0.
Proof.
  intros Hnext Hs Hs' Hfit. unfold SimpleMemoryModel.allocate_page.
  cbn [SimpleMemoryModel.next_alloc_].
  assert (Hu : u64 (SimpleMemoryModel.next_alloc_ m + size)
               = SimpleMemoryModel.next_alloc_ m + size)
    by (unfold u64; apply Z.mod_small; lia).
  rewrite Hu.
  destruct (Z.ltb_spec SimpleMemoryModel.MEMORY_SIZE (SimpleMemoryModel.next_alloc_ m + size))
    as [Hover|_]; cbn [fst snd SimpleMemoryModel.next_alloc_]; [|lia].
  intros _.
  assert (Hu' : u64 (SimpleMemoryModel.next_alloc_ m + size + size')
                = SimpleMemoryModel.next_alloc_ m + size + size')
    by (unfold u64; apply Z.mod_small; lia).
  rewrite Hu'.
  destruct (Z.ltb_spec SimpleMemoryModel.MEMORY_SIZE
              (SimpleMemoryModel.next_alloc_ m + size + size')) as [_|?]; [done|lia].
Qed.

Lemma allocate_page_failure_sticky_witness :
  snd (SimpleMemoryModel.allocate_page
         (fst (SimpleMemoryModel.allocate_page SimpleMemoryModel.init 0x20000000)) 0x1000) = 0.
Proof.
  apply (allocate_page_failure_sticky SimpleMemoryModel.init 0x20000000 0x1000).
  - reflexivity.
  - discriminate.
  - discriminate.
  - reflexivity.
  - reflexivity.
Defined.

(** Successive successful allocations hand out adjacent, non-overlapping
    ranges that lie inside the memory. *)
Theorem allocate_page_adjacent (m : SimpleMemoryModel.t) (size size' : Z) :
  0 < SimpleMemoryModel.next_alloc_ m ->
  0 <= size -> 0 <= size' ->
  SimpleMemoryModel.next_alloc_ m + size + size' < two64 ->
  let '(m1, a1) := SimpleMemoryModel.allocate_page m size in
  let '(m2, a2) := SimpleMemoryModel.allocate_page m1 size' in
  a2 ≠ 0 ->
  a1 = SimpleMemoryModel.next_alloc_ m ∧ a2 = a1 + size ∧
  a2 + size' <= SimpleMemoryModel.MEMORY_SIZE ∧
  SimpleMemoryModel.memory_ m2 = SimpleMemoryModel.memory_ m.
Proof.
  intros Hnext Hs Hs' Hfit. unfold SimpleMemoryModel.allocate_page.
  cbn [SimpleMemoryModel.next_alloc_].
  assert (Hu : u64 (SimpleMemoryModel.next_alloc_ m + size)
               = SimpleMemoryModel.next_alloc_ m + size)
    by (unfold u64; apply Z.mod_small; lia).
  assert (Hu' : u64 (SimpleMemoryModel.next_alloc_ m + size + size')
                = SimpleMemoryModel.next_alloc_ m + size + size')
    by (unfold u64; apply Z.mod_small; lia).
  rewrite Hu.
  destruct (Z.ltb_spec SimpleMemoryModel.MEMORY_SIZE (SimpleMemoryModel.next_alloc_ m + size))
    as [Hover|Hok]; cbn [SimpleMemoryModel.next_alloc_]; rewrite Hu';
    destruct (Z.ltb_spec SimpleMemoryModel.MEMORY_SIZE
                (SimpleMemoryModel.next_alloc_ m + size + size')) as [?|Hok'];
    intros Ha2; try done; try lia.
Qed.

Lemma allocate_page_adjacent_witness :
  let '(m1, a1) := SimpleMemoryModel.allocate_page SimpleMemoryModel.init 0x1000 in
  let '(m2, a2) := SimpleMemoryModel.allocate_page m1 0x2000 in
  a2 ≠ 0 ->
  a1 = SimpleMemoryModel.next_alloc_ SimpleMemoryModel.init ∧ a2 = a1 + 0x1000 ∧
  a2 + 0x2000 <= SimpleMemoryModel.MEMORY_SIZE ∧
  SimpleMemoryModel.memory_ m2 = SimpleMemoryModel.memory_ SimpleMemoryModel.init.
Proof.
  apply (allocate_page_adjacent SimpleMemoryModel.init 0x1000 0x2000).
  - reflexivity.
  - discriminate.
  - discriminate.
  - reflexivity.
Defined.

(** ** The orchestrator: configuration stores *)

Lemma lor_shiftl_add (a b n : Z) :
  0 <= n -> 0 <= b < 2 ^ n -> Z.lor (Z.shiftl a n) b = a * 2 ^ n + b.
Proof.
  intros Hn Hb. rewrite <- Z.shiftl_mul_pow2 by lia.
  symmetry. apply Z.add_nocarry_lor. apply Z.bits_inj'. intros i Hi.
  rewrite Z.land_spec, Z.bits_0.
  destruct (Z.lt_ge_cases i n) as [Hlt|Hge].
  - by rewrite Z.shiftl_spec_low.
  - rewrite <- (Z.mod_small b (2 ^ n)) by lia.
    rewrite Z.mod_pow2_bits_high by lia. apply andb_false_r.
Qed.

(** The key of the context-descriptor table separates the pairs
    (stream, ASID) of the declared widths: a descriptor configured for
    one pair is returned for that pair and leaves every other pair with
    what it had. *)
Theorem context_descriptor_store (s : SMMU.t) sid asid (cd : ContextDescriptor.t) sid' asid' :
  0 <= sid < 2 ^ 32 -> 0 <= asid < 2 ^ 16 ->
  0 <= sid' < 2 ^ 32 -> 0 <= asid' < 2 ^ 16 ->
  SMMU.get_context_descriptor (SMMU.configure_context_descriptor s sid asid cd) sid asid = cd ∧
  (SMMU.make_cd_key sid' asid' = SMMU.make_cd_key sid asid -> sid' = sid ∧ asid' = asid) ∧
  ((sid', asid') ≠ (sid, asid) ->
   SMMU.get_context_descriptor (SMMU.configure_context_descriptor s sid asid cd) sid' asid'
   = SMMU.get_context_descriptor s sid' asid').
Proof.
  intros Hsid Hasid Hsid' Hasid'.
  assert (Hkey : ∀ a b, 0 <= a < 2 ^ 32 -> 0 <= b < 2 ^ 16 ->
             SMMU.make_cd_key a b = a * 2 ^ 16 + b).
  { intros a b Ha Hb. unfold SMMU.make_cd_key, u64, two64.
    rewrite Z.mod_small; [by apply lor_shiftl_add|].
    rewrite Z.shiftl_mul_pow2 by lia. lia. }
  assert (Hinj : SMMU.make_cd_key sid' asid' = SMMU.make_cd_key sid asid ->
                 sid' = sid ∧ asid' = asid).
  { rewrite !Hkey by done. lia. }
  unfold SMMU.get_context_descriptor, SMMU.configure_context_descriptor.
  cbn [SMMU.context_descriptors_].
  split; [by rewrite lookup_insert_eq|]. split; [exact Hinj|].
  intros Hne. rewrite lookup_insert_ne; [done|].
  intros Heq. symmetry in Heq. apply Hinj in Heq as [-> ->]. by apply Hne.
Qed.

Lemma context_descriptor_store_witness :
  SMMU.get_context_descriptor (SMMU.configure_context_descriptor smmu_ready 1 0 cd_4k) 1 0
  = cd_4k ∧
  (SMMU.make_cd_key 0 1 = SMMU.make_cd_key 1 0 -> 0 = 1 ∧ 1 = 0) ∧
  ((0, 1) ≠ (1, 0) ->
   SMMU.get_context_descriptor (SMMU.configure_context_descriptor smmu_ready 1 0 cd_4k) 0 1
   = SMMU.get_context_descriptor smmu_ready 0 1).
Proof. apply (context_descriptor_store smmu_ready 1 0 cd_4k 0 1); lia. Defined.

(** ** The orchestrator: the command queue under overflow *)

(** [submit_command] accepts commands in order while the queue has free
    slots and silently drops the rest: after a run of submissions the
    queue is the old queue followed by the first "free slots" many of the
    submitted commands, and nothing else in the unit has changed. *)
Theorem submit_commands_saturate (cmds : list Command) (s : SMMU.t) :
  foldl SMMU.submit_command s cmds
  = SMMU.set_command_queue s
      (SMMU.command_queue_ s
       ++ take (Z.to_nat (SMMUConfig.command_queue_size (SMMU.config_ s)
                          - Z.of_nat (length (SMMU.command_queue_ s)))) cmds).
Proof.
  revert s. induction cmds as [|c cmds IH]; intros s; cbn [foldl].
  - by rewrite take_nil, app_nil_r, set_command_queue_id.
  - rewrite IH. unfold SMMU.submit_command.
    destruct (Z.ltb_spec (Z.of_nat (length (SMMU.command_queue_ s)))
                (SMMUConfig.command_queue_size (SMMU.config_ s))) as [Hroom|Hfull].
    + cbn [SMMU.set_command_queue SMMU.command_queue_ SMMU.config_].
      rewrite length_app. cbn [length].
      replace (Z.to_nat (SMMUConfig.command_queue_size (SMMU.config_ s)
                         - Z.of_nat (length (SMMU.command_queue_ s))))
        with (S (Z.to_nat (SMMUConfig.command_queue_size (SMMU.config_ s)
                           - Z.of_nat (length (SMMU.command_queue_ s) + 1)))) by lia.
      cbn [take]. by rewrite <- app_assoc.
    + replace (Z.to_nat (SMMUConfig.command_queue_size (SMMU.config_ s)
                         - Z.of_nat (length (SMMU.command_queue_ s)))) with 0%nat by lia.
      done.
Qed.

(** ** The orchestrator: every way a translation can go *)

Lemma translate_stage1_cases mem (s : SMMU.t) va ste cd s' r :
  SMMU.translate_stage1 mem s va ste cd = (s', r) ->
  (success r = true ∧ fault_reason r = "" ∧ s' = count_walk s) ∨
  (success r = false ∧
   ∃ walks, (walks <= 1)%nat ∧
     s' = record_fault (Nat.iter walks count_walk s) 0 (ContextDescriptor.asid cd)
            (StreamTableEntry.vmid ste) va (fault_reason r)).
Proof.
  intros Hst. pose proof (translate_stage1_reason _ _ _ _ _ _ _ Hst) as Hreason.
  revert Hst. unfold SMMU.translate_stage1.
  destruct (ContextDescriptor.valid cd); cbn [negb].
  - destruct (success (PageTableWalker.translate mem va _ _ _ _)) eqn:Hs; cbn [negb];
      intros [= <- <-].
    + left. rewrite Hs. auto.
    + right. split; [exact Hs|]. exists 1%nat. split; [lia | reflexivity].
  - intros [= <- <-]. right. split; [done|]. exists 0%nat. split; [lia | reflexivity].
Qed.

Lemma translate_stage2_cases mem (s : SMMU.t) ipa ste s' r :
  StreamTableEntry.s2_enabled ste = true ->
  SMMU.translate_stage2 mem s ipa ste = (s', r) ->
  (success r = true ∧ fault_reason r = "" ∧ s' = count_walk s) ∨
  (success r = false ∧
   s' = record_fault (count_walk s) 0 0 (StreamTableEntry.vmid ste) ipa (fault_reason r)).
Proof.
  intros Hs2 Hst. pose proof (translate_stage2_reason _ _ _ _ _ _ Hs2 Hst) as Hreason.
  revert Hst. unfold SMMU.translate_stage2. rewrite Hs2. cbn [negb].
  destruct (success (PageTableWalker.translate mem ipa _ _ _ _)) eqn:Hs; cbn [negb];
    intros [= <- <-].
  - left. rewrite Hs. auto.
  - right. by split.
Qed.

Lemma fill_tlb_success (s : SMMU.t) va sid asid vmid ste r :
  success r = true ->
  SMMU.fill_tlb s va sid asid vmid ste r
  = (SMMU.set_tlb s
       (TLB.insert (SMMU.tlb_ s)
          (filled_entry va sid asid vmid
             (if StreamTableEntry.s1_enabled ste then STAGE1 else STAGE2) r)), r).
Proof. intros Hok. unfold SMMU.fill_tlb. by rewrite Hok. Qed.

Lemma translate_miss_unfold mem (s : SMMU.t) va sid asid vmid tlb' :
  SMMU.enabled_ s = true ->
  TLB.lookup (SMMU.tlb_ s) va sid asid vmid = (tlb', None) ->
  SMMU.translate mem s va sid asid vmid
  = let s2 := miss_state s tlb' 0 in
    let ste := SMMU.get_stream_table_entry s sid in
    if negb (StreamTableEntry.valid ste) then
      (record_fault s2 sid asid vmid va "Invalid stream table entry",
       fault "Invalid stream table entry")
    else if StreamTableEntry.s1_enabled ste then
      let '(s3, result) :=
        SMMU.translate_stage1 mem s2 va ste (SMMU.get_context_descriptor s sid asid) in
      if negb (success result) then (s3, result)
      else if StreamTableEntry.s2_enabled ste then
        let '(s4, result2) := SMMU.translate_stage2 mem s3 (physical_addr result) ste in
        SMMU.fill_tlb s4 va sid asid vmid ste result2
      else SMMU.fill_tlb s3 va sid asid vmid ste result
    else if StreamTableEntry.s2_enabled ste then
      let '(s3, result) := SMMU.translate_stage2 mem s2 va ste in
      SMMU.fill_tlb s3 va sid asid vmid ste result
    else
      (record_fault s2 sid asid vmid va "No translation stages enabled",
       fault "No translation stages enabled").
Proof.
  intros Hen Hl. unfold SMMU.translate.
  cbn [SMMU.enabled_ SMMU.set_stats SMMU.tlb_]. rewrite Hen, Hl. reflexivity.
Qed.

(** Every call of [translate] goes one of four ways: refused because the
    unit is disabled; answered from the cache; failed after a miss and at
    most two walks, with one recorded fault; or answered by one or two
    walks and filed in the cache. *)
Theorem translate_outcomes mem (s : SMMU.t) va sid asid vmid :
  translate_outcome s va sid asid vmid
    (fst (SMMU.translate mem s va sid asid vmid))
    (snd (SMMU.translate mem s va sid asid vmid)).
Proof.
  destruct (SMMU.enabled_ s) eqn:Hen.
  2:{ unfold SMMU.translate. cbn [SMMU.enabled_ SMMU.set_stats]. rewrite Hen.
      cbn [negb fst snd]. by apply outcome_disabled. }
  destruct (TLB.lookup (SMMU.tlb_ s) va sid asid vmid) as [tlb' [e|]] eqn:Hl.
  { rewrite (translate_hit mem s va sid asid vmid e Hen) by (by rewrite Hl).
    rewrite Hl. cbn [fst snd]. by apply outcome_hit. }
  rewrite (translate_miss_unfold mem s va sid asid vmid tlb' Hen Hl). cbv zeta.
  set (s2 := miss_state s tlb' 0).
  set (ste := SMMU.get_stream_table_entry s sid).
  destruct (StreamTableEntry.valid ste); cbn [negb].
  2:{ cbn [fst snd]. apply (outcome_fault _ _ _ _ _ tlb' 0 sid asid vmid va
                              (fault "Invalid stream table entry")); [done | done | lia | done]. }
  destruct (StreamTableEntry.s1_enabled ste) eqn:Hs1.
  - destruct (SMMU.translate_stage1 mem s2 va ste _) as [s3 r1] eqn:H1.
    apply translate_stage1_cases in H1 as [(Hr1 & Hreason1 & ->) | (Hr1 & w & Hw & ->)];
      rewrite Hr1; cbn [negb fst snd].
    2:{ change (Nat.iter w count_walk s2) with (miss_state s tlb' w).
        apply outcome_fault; [done | done | lia | done]. }
    destruct (StreamTableEntry.s2_enabled ste) eqn:Hs2.
    + destruct (SMMU.translate_stage2 mem (count_walk s2) _ ste) as [s4 r2] eqn:H2.
      apply (translate_stage2_cases _ _ _ _ _ _ Hs2) in H2
        as [(Hr2 & Hreason2 & ->) | (Hr2 & ->)].
      * rewrite fill_tlb_success by done. rewrite Hs1. cbn [fst snd].
        apply (outcome_filled _ _ _ _ _ tlb' 2); [done | done | lia | done | done].
      * unfold SMMU.fill_tlb. rewrite Hr2. cbn [fst snd].
        apply (outcome_fault _ _ _ _ _ tlb' 2); [done | done | lia | done].
    + rewrite fill_tlb_success by done. rewrite Hs1. cbn [fst snd].
      apply (outcome_filled _ _ _ _ _ tlb' 1); [done | done | lia | done | done].
  - destruct (StreamTableEntry.s2_enabled ste) eqn:Hs2.
    + destruct (SMMU.translate_stage2 mem s2 va ste) as [s3 r2] eqn:H2.
      apply (translate_stage2_cases _ _ _ _ _ _ Hs2) in H2
        as [(Hr2 & Hreason2 & ->) | (Hr2 & ->)].
      * rewrite fill_tlb_success by done. rewrite Hs1. cbn [fst snd].
        apply (outcome_filled _ _ _ _ _ tlb' 1); [done | done | lia | done | done].
      * unfold SMMU.fill_tlb. rewrite Hr2. cbn [fst snd].
        apply (outcome_fault _ _ _ _ _ tlb' 1); [done | done | lia | done].
    + cbn [fst snd]. apply (outcome_fault _ _ _ _ _ tlb' 0 sid asid vmid va
                              (fault "No translation stages enabled"));
        [done | done | lia | done].
Qed.

Lemma record_fault_frame (s : SMMU.t) sid asid vmid va reason :
  let s' := record_fault s sid asid vmid va reason in
  SMMU.config_ s' = SMMU.config_ s ∧ SMMU.enabled_ s' = SMMU.enabled_ s ∧
  SMMU.tlb_ s' = SMMU.tlb_ s ∧ SMMU.stream_table_ s' = SMMU.stream_table_ s ∧
  SMMU.context_descriptors_ s' = SMMU.context_descriptors_ s ∧
  SMMU.command_queue_ s' = SMMU.command_queue_ s ∧
  Statistics.total_translations (SMMU.stats_ s')
  = Statistics.total_translations (SMMU.stats_ s) ∧
  Statistics.tlb_hits (SMMU.stats_ s') = Statistics.tlb_hits (SMMU.stats_ s) ∧
  Statistics.tlb_misses (SMMU.stats_ s') = Statistics.tlb_misses (SMMU.stats_ s) ∧
  Statistics.page_table_walks (SMMU.stats_ s')
  = Statistics.page_table_walks (SMMU.stats_ s) ∧
  Statistics.permission_faults (SMMU.stats_ s')
  = Statistics.permission_faults (SMMU.stats_ s) ∧
  Statistics.commands_processed (SMMU.stats_ s')
  = Statistics.commands_processed (SMMU.stats_ s) ∧
  (SMMU.event_queue_ s' = SMMU.event_queue_ s ∨
   ∃ ev, SMMU.event_queue_ s' = SMMU.event_queue_ s ++ [ev] ∧
         Z.of_nat (length (SMMU.event_queue_ s))
         < SMMUConfig.event_queue_size (SMMU.config_ s) ∧
         Event.fault_type ev = TRANSLATION_FAULT ∧
         Event.timestamp ev = SMMU.timestamp_counter_ s).
Proof.
  unfold record_fault, SMMU.generate_event.
  destruct (Z.ltb_spec (Z.of_nat (length (SMMU.event_queue_ s)))
              (SMMUConfig.event_queue_size (SMMU.config_ s))) as [Hroom|Hfull]; cbn.
  - repeat split; try reflexivity. right. eexists. repeat split. exact Hroom.
  - repeat split; try reflexivity. by left.
Qed.

Lemma translate_queue_bounds mem (s : SMMU.t) va sid asid vmid :
  SMMU.config_ (fst (SMMU.translate mem s va sid asid vmid)) = SMMU.config_ s ∧
  SMMU.command_queue_ (fst (SMMU.translate mem s va sid asid vmid)) = SMMU.command_queue_ s ∧
  Z.of_nat (length (SMMU.event_queue_ (fst (SMMU.translate mem s va sid asid vmid))))
  <= Z.max (Z.of_nat (length (SMMU.event_queue_ s)))
           (SMMUConfig.event_queue_size (SMMU.config_ s)).
Proof.
  destruct (translate_outcomes mem s va sid asid vmid)
    as [Hen | tlb' e Hen Hl | tlb' w sid0 asid0 vmid0 va0 r Hen Hl Hw Hr
        | tlb' w stage r Hen Hl Hw Hr Hreason].
  - cbn. repeat split; lia.
  - cbn. repeat split; lia.
  - destruct (record_fault_frame (miss_state s tlb' w) sid0 asid0 vmid0 va0 (fault_reason r))
      as (Hc & _ & _ & _ & _ & Hq & _ & _ & _ & _ & _ & _ & Hev).
    assert (Hm : SMMU.config_ (miss_state s tlb' w) = SMMU.config_ s ∧
                 SMMU.command_queue_ (miss_state s tlb' w) = SMMU.command_queue_ s ∧
                 SMMU.event_queue_ (miss_state s tlb' w) = SMMU.event_queue_ s)
      by (by destruct w as [|[|[|w]]]; [| | |lia]).
    destruct Hm as (Hmc & Hmq & Hme). rewrite Hmc, Hme in Hev.
    rewrite Hc, Hq, Hmc, Hmq. split; [done|]. split; [done|].
    destruct Hev as [-> | (ev & -> & Hroom & _)]; [lia|].
    rewrite length_app. cbn [length]. lia.
  - destruct w as [|[|[|w]]]; [lia| | |lia]; cbn; repeat split; lia.
Qed.

(** [translate] never touches the configuration: the unit's parameters,
    its enable flag, the stream table, the context descriptors and the
    command queue are the same after the call.  The event queue is either
    unchanged or longer by one Translation event, appended only when the
    queue was below its bound and stamped with the event counter. *)
Theorem translate_frame mem (s : SMMU.t) va sid asid vmid :
  let s' := fst (SMMU.translate mem s va sid asid vmid) in
  SMMU.config_ s' = SMMU.config_ s ∧ SMMU.enabled_ s' = SMMU.enabled_ s ∧
  SMMU.stream_table_ s' = SMMU.stream_table_ s ∧
  SMMU.context_descriptors_ s' = SMMU.context_descriptors_ s ∧
  SMMU.command_queue_ s' = SMMU.command_queue_ s ∧
  (SMMU.event_queue_ s' = SMMU.event_queue_ s ∨
   ∃ ev, SMMU.event_queue_ s' = SMMU.event_queue_ s ++ [ev] ∧
         Z.of_nat (length (SMMU.event_queue_ s))
         < SMMUConfig.event_queue_size (SMMU.config_ s) ∧
         Event.fault_type ev = TRANSLATION_FAULT ∧
         Event.timestamp ev = SMMU.timestamp_counter_ s).
Proof.
  cbn zeta.
  destruct (translate_outcomes mem s va sid asid vmid)
    as [Hen | tlb' e Hen Hl | tlb' w sid0 asid0 vmid0 va0 r Hen Hl Hw Hr
        | tlb' w stage r Hen Hl Hw Hr Hreason].
  - repeat split; by left.
  - repeat split; by left.
  - destruct (record_fault_frame (miss_state s tlb' w) sid0 asid0 vmid0 va0 (fault_reason r))
      as (Hc & He & _ & Hst & Hcd & Hq & _ & _ & _ & _ & _ & _ & Hev).
    destruct w as [|[|[|w]]]; [| | |lia]; cbn in Hc, He, Hst, Hcd, Hq, Hev; auto 10.
  - destruct w as [|[|[|w]]]; [lia| | |lia]; cbn; repeat split; by left.
Qed.

(** How one call of [translate] moves the counters: [total_translations]
    goes up by one in every case; a disabled unit changes nothing else; an
    enabled unit counts either one hit and no walk, or one miss and zero,
    one or two walks.  [permission_faults] and [commands_processed] are
    never touched. *)
Theorem translate_accounting mem (s : SMMU.t) va sid asid vmid :
  let st := SMMU.stats_ s in
  let st' := SMMU.stats_ (fst (SMMU.translate mem s va sid asid vmid)) in
  Statistics.total_translations st' = u64 (Statistics.total_translations st + 1) ∧
  Statistics.permission_faults st' = Statistics.permission_faults st ∧
  Statistics.commands_processed st' = Statistics.commands_processed st ∧
  (SMMU.enabled_ s = false ->
   Statistics.tlb_hits st' = Statistics.tlb_hits st ∧
   Statistics.tlb_misses st' = Statistics.tlb_misses st ∧
   Statistics.page_table_walks st' = Statistics.page_table_walks st ∧
   Statistics.translation_faults st' = Statistics.translation_faults st ∧
   Statistics.events_generated st' = Statistics.events_generated st) ∧
  (SMMU.enabled_ s = true ->
   (Statistics.tlb_hits st' = u64 (Statistics.tlb_hits st + 1) ∧
    Statistics.tlb_misses st' = Statistics.tlb_misses st ∧
    Statistics.page_table_walks st' = Statistics.page_table_walks st) ∨
   (Statistics.tlb_hits st' = Statistics.tlb_hits st ∧
    Statistics.tlb_misses st' = u64 (Statistics.tlb_misses st + 1) ∧
    (Statistics.page_table_walks st' = Statistics.page_table_walks st ∨
     Statistics.page_table_walks st' = u64 (Statistics.page_table_walks st + 1) ∨
     Statistics.page_table_walks st'
     = u64 (u64 (Statistics.page_table_walks st + 1) + 1)))).
Proof.
  cbn zeta.
  destruct (translate_outcomes mem s va sid asid vmid)
    as [Hen | tlb' e Hen Hl | tlb' w sid0 asid0 vmid0 va0 r Hen Hl Hw Hr
        | tlb' w stage r Hen Hl Hw Hr Hreason].
  - do 3 (split; [reflexivity|]). split; [done | congruence].
  - do 3 (split; [reflexivity|]). split; [congruence|]. intros _. left. done.
  - destruct (record_fault_frame (miss_state s tlb' w) sid0 asid0 vmid0 va0 (fault_reason r))
      as (_ & _ & _ & _ & _ & _ & Ht & Hh & Hm & Hwk & Hpf & Hcp & _).
    rewrite Ht, Hh, Hm, Hwk, Hpf, Hcp.
    destruct w as [|[|[|w]]]; [| | |lia];
      (do 3 (split; [reflexivity|]); split; [congruence|]; intros _; right;
       do 2 (split; [reflexivity|]); auto).
  - destruct w as [|[|[|w]]]; [lia| | |lia];
      (do 3 (split; [reflexivity|]); split; [congruence|]; intros _; right;
       do 2 (split; [reflexivity|]); auto).
Qed.

(** A successful translation leaves no trace in the fault channel: the
    event queue, the event counter, [translation_faults] and
    [events_generated] are what they were. *)
Theorem translate_success_no_fault mem (s : SMMU.t) va sid asid vmid :
  success (snd (SMMU.translate mem s va sid asid vmid)) = true ->
  let s' := fst (SMMU.translate mem s va sid asid vmid) in
  SMMU.event_queue_ s' = SMMU.event_queue_ s ∧
  SMMU.timestamp_counter_ s' = SMMU.timestamp_counter_ s ∧
  Statistics.translation_faults (SMMU.stats_ s')
  = Statistics.translation_faults (SMMU.stats_ s) ∧
  Statistics.events_generated (SMMU.stats_ s')
  = Statistics.events_generated (SMMU.stats_ s).
Proof.
  cbn zeta.
  destruct (translate_outcomes mem s va sid asid vmid)
    as [Hen | tlb' e Hen Hl | tlb' w sid0 asid0 vmid0 va0 r Hen Hl Hw Hr
        | tlb' w stage r Hen Hl Hw Hr Hreason]; intros Hok.
  - discriminate Hok.
  - repeat split.
  - congruence.
  - destruct w as [|[|[|w]]]; [lia| | |lia]; repeat split.
Qed.

Lemma translate_success_no_fault_witness :
  let mem := SimpleMemoryModel.memory_read mem_pages in
  let s' := fst (SMMU.translate mem smmu_ready 0x1000 0 1 0) in
  SMMU.event_queue_ s' = SMMU.event_queue_ smmu_ready ∧
  SMMU.timestamp_counter_ s' = SMMU.timestamp_counter_ smmu_ready ∧
  Statistics.translation_faults (SMMU.stats_ s')
  = Statistics.translation_faults (SMMU.stats_ smmu_ready) ∧
  Statistics.events_generated (SMMU.stats_ s')
  = Statistics.events_generated (SMMU.stats_ smmu_ready).
Proof.
  apply (translate_success_no_fault (SimpleMemoryModel.memory_read mem_pages)
           smmu_ready 0x1000 0 1 0).
  vm_compute. reflexivity.
Defined.

(** ** The orchestrator: invariants of every reachable state *)

Lemma tlb_run_app tlb ops1 ops2 : tlb_run (tlb_run tlb ops1) ops2 = tlb_run tlb (ops1 ++ ops2).
Proof. unfold tlb_run. by rewrite foldl_app. Qed.

Lemma miss_state_tlb (s : SMMU.t) tlb' w : SMMU.tlb_ (miss_state s tlb' w) = tlb'.
Proof. unfold miss_state. induction w as [|w IH]; [done|exact IH]. Qed.

Lemma translate_tlb_run mem (s : SMMU.t) va sid asid vmid :
  ∃ tops, SMMU.tlb_ (fst (SMMU.translate mem s va sid asid vmid))
          = tlb_run (SMMU.tlb_ s) tops.
Proof.
  destruct (translate_outcomes mem s va sid asid vmid)
    as [Hen | tlb' e Hen Hl | tlb' w sid0 asid0 vmid0 va0 r Hen Hl Hw Hr
        | tlb' w stage r Hen Hl Hw Hr Hreason].
  - by exists [].
  - exists [OpLookup va sid asid vmid]. unfold tlb_run. cbn [foldl tlb_step]. by rewrite Hl.
  - exists [OpLookup va sid asid vmid]. unfold tlb_run. cbn [foldl tlb_step].
    rewrite (proj1 (proj2 (proj2 (record_fault_frame _ _ _ _ _ _)))), Hl.
    apply miss_state_tlb.
  - exists [OpLookup va sid asid vmid; OpInsert (filled_entry va sid asid vmid stage r)].
    unfold tlb_run. cbn [foldl tlb_step]. rewrite Hl. reflexivity.
Qed.

Lemma process_command_effect (s : SMMU.t) (c : Command) :
  (∃ tops, SMMU.tlb_ (SMMU.process_command s c) = tlb_run (SMMU.tlb_ s) tops) ∧
  SMMU.config_ (SMMU.process_command s c) = SMMU.config_ s ∧
  SMMU.event_queue_ (SMMU.process_command s c) = SMMU.event_queue_ s ∧
  SMMU.command_queue_ (SMMU.process_command s c) = SMMU.command_queue_ s.
Proof.
  destruct c; (split; [|done]).
  - by exists [].
  - by exists [].
  - by exists [].
  - by exists [OpInvalidateByStream stream_id].
  - by exists [OpInvalidateByAsid asid].
  - by exists [OpInvalidateAll].
  - by exists [OpInvalidateAll].
  - by exists [OpInvalidateByAsid asid].
  - by exists [OpInvalidateByVa va asid].
  - by exists [OpInvalidateByVmid vmid].
Qed.

Lemma foldl_process_effect (cmds : list Command) :
  ∀ s : SMMU.t,
    (∃ tops, SMMU.tlb_ (foldl SMMU.process_command s cmds) = tlb_run (SMMU.tlb_ s) tops) ∧
    SMMU.config_ (foldl SMMU.process_command s cmds) = SMMU.config_ s ∧
    SMMU.event_queue_ (foldl SMMU.process_command s cmds) = SMMU.event_queue_ s.
Proof.
  induction cmds as [|c cmds IH]; intros s; cbn [foldl].
  - split; [by exists []|done].
  - destruct (IH (SMMU.process_command s c)) as ([tops2 Htlb2] & Hc2 & He2).
    destruct (process_command_effect s c) as ([tops1 Htlb1] & Hc1 & He1 & _).
    split; [|by rewrite Hc2, He2].
    exists (tops1 ++ tops2). by rewrite Htlb2, Htlb1, tlb_run_app.
Qed.

Lemma smmu_step_effect (s : SMMU.t) (op : smmu_op) :
  (∃ tops, SMMU.tlb_ (smmu_step s op) = tlb_run (SMMU.tlb_ s) tops) ∧
  SMMU.config_ (smmu_step s op) = SMMU.config_ s ∧
  (Z.of_nat (length (SMMU.command_queue_ (smmu_step s op)))
   <= Z.max (Z.of_nat (length (SMMU.command_queue_ s)))
            (SMMUConfig.command_queue_size (SMMU.config_ s))) ∧
  (Z.of_nat (length (SMMU.event_queue_ (smmu_step s op)))
   <= Z.max (Z.of_nat (length (SMMU.event_queue_ s)))
            (SMMUConfig.event_queue_size (SMMU.config_ s))).
Proof.
  destruct op; unfold smmu_step.
  - destruct (translate_queue_bounds memory_read_ s va stream_id asid vmid)
      as (Hc & Hq & Hev).
    split; [apply translate_tlb_run|]. split; [exact Hc|]. rewrite Hq. split; [lia|].
    exact Hev.
  - split; [by exists []|]. cbn. split; [done|]. lia.
  - split; [by exists []|]. cbn. split; [done|]. lia.
  - unfold SMMU.submit_command.
    destruct (Z.ltb_spec (Z.of_nat (length (SMMU.command_queue_ s)))
                (SMMUConfig.command_queue_size (SMMU.config_ s)));
      (split; [by exists []|]); cbn; (split; [done|]);
      rewrite ?length_app; cbn [length]; lia.
  - rewrite process_commands_foldl. cbn [SMMU.tlb_ SMMU.config_ SMMU.set_command_queue
                                         SMMU.command_queue_ SMMU.event_queue_ length].
    destruct (foldl_process_effect (SMMU.command_queue_ s) s) as (Htlb & Hc & He).
    split; [exact Htlb|]. rewrite Hc, He. split; [done|]. lia.
  - unfold SMMU.pop_event.
    destruct (SMMU.event_queue_ s) as [|ev q] eqn:Hq; (split; [by exists []|]);
      cbn; rewrite ?Hq; cbn [length]; (split; [done|]); lia.
  - split; [by exists [OpInvalidateAll]|]. cbn. split; [done|]. lia.
  - split; [by exists [OpInvalidateByAsid asid]|]. cbn. split; [done|]. lia.
  - split; [by exists [OpInvalidateByVmid vmid]|]. cbn. split; [done|]. lia.
  - split; [by exists [OpInvalidateByVa va asid]|]. cbn. split; [done|]. lia.
  - split; [by exists [OpInvalidateByStream stream_id]|]. cbn. split; [done|]. lia.
  - split; [by exists []|]. cbn. split; [done|]. lia.
  - split; [by exists []|]. cbn. split; [done|]. lia.
  - split; [by exists []|]. cbn. split; [done|]. lia.
Qed.

Lemma smmu_run_effect (ops : list smmu_op) :
  ∀ s : SMMU.t,
    (∃ tops, SMMU.tlb_ (smmu_run s ops) = tlb_run (SMMU.tlb_ s) tops) ∧
    SMMU.config_ (smmu_run s ops) = SMMU.config_ s ∧
    (Z.of_nat (length (SMMU.command_queue_ (smmu_run s ops)))
     <= Z.max (Z.of_nat (length (SMMU.command_queue_ s)))
              (SMMUConfig.command_queue_size (SMMU.config_ s))) ∧
    (Z.of_nat (length (SMMU.event_queue_ (smmu_run s ops)))
     <= Z.max (Z.of_nat (length (SMMU.event_queue_ s)))
              (SMMUConfig.event_queue_size (SMMU.config_ s))).
Proof.
  induction ops as [|op ops IH]; intros s; cbn [smmu_run foldl].
  - split; [by exists []|]. split; [done|]. lia.
  - destruct (IH (smmu_step s op)) as ([tops2 Htlb2] & Hc2 & Hq2 & He2).
    destruct (smmu_step_effect s op) as ([tops1 Htlb1] & Hc1 & Hq1 & He1).
    unfold smmu_run in *. rewrite Hc1 in *.
    split; [exists (tops1 ++ tops2); by rewrite Htlb2, Htlb1, tlb_run_app|].
    split; [by rewrite Hc2|]. lia.
Qed.

(** Whatever public operations are run on a new unit, with whatever
    memories behind the translations: the configuration is the one given
    at construction; neither queue is ever longer than its configured
    depth; the cache keeps its list and map consistent, files each entry
    under its own key, has the configured capacity and, when that is at
    least one, never holds more entries than it. *)
Theorem smmu_run_invariant (config : SMMUConfig.t) (ops : list smmu_op) :
  let s := smmu_run (SMMU.create config) ops in
  SMMU.config_ s = config ∧
  Z.of_nat (length (SMMU.command_queue_ s)) <= Z.max 0 (SMMUConfig.command_queue_size config) ∧
  Z.of_nat (length (SMMU.event_queue_ s)) <= Z.max 0 (SMMUConfig.event_queue_size config) ∧
  tlb_consistent (SMMU.tlb_ s) ∧
  tlb_keyed (SMMU.tlb_ s) ∧
  TLB.capacity_ (SMMU.tlb_ s) = SMMUConfig.tlb_size config ∧
  (1 <= SMMUConfig.tlb_size config ->
   Z.of_nat (TLB.size (SMMU.tlb_ s)) <= SMMUConfig.tlb_size config).
Proof.
  cbn zeta.
  destruct (smmu_run_effect ops (SMMU.create config)) as ([tops Htlb] & Hc & Hq & He).
  cbn in Hc, Hq, He, Htlb. rewrite Htlb.
  destruct (tlb_run_reachable (SMMUConfig.tlb_size config) tops)
    as ([Hnd Hdom] & Hkeyed & Hcap).
  repeat split; try done; try apply Hdom.
  intros HN. by apply tlb_size_bounded.
Qed.

(** ** The orchestrator: what the cache remembers and forgets *)

Lemma translate_success_cached mem (s : SMMU.t) va sid asid vmid :
  success (snd (SMMU.translate mem s va sid asid vmid)) = true ->
  SMMU.enabled_ (fst (SMMU.translate mem s va sid asid vmid)) = true ∧
  ∃ e, snd (TLB.lookup (SMMU.tlb_ (fst (SMMU.translate mem s va sid asid vmid)))
                       va sid asid vmid) = Some e ∧
       snd (SMMU.translate mem s va sid asid vmid) = cached_result e.
Proof.
  destruct (translate_outcomes mem s va sid asid vmid)
    as [Hen | tlb' e Hen Hl | tlb' w sid0 asid0 vmid0 va0 r Hen Hl Hw Hr
        | tlb' w stage r Hen Hl Hw Hr Hreason]; intros Hok.
  - discriminate Hok.
  - split; [exact Hen|]. exists e. split; [|done].
    cbn [SMMU.tlb_ SMMU.set_stats SMMU.set_tlb].
    replace tlb' with (fst (TLB.lookup (SMMU.tlb_ s) va sid asid vmid)) by (by rewrite Hl).
    rewrite lookup_again. by rewrite Hl.
  - congruence.
  - split.
    { cbn [SMMU.enabled_ SMMU.set_tlb]. unfold miss_state.
      clear -Hen. induction w as [|w IH]; [exact Hen | exact IH]. }
    exists (TLBEntry.with_timestamp (filled_entry va sid asid vmid stage r)
              (TLB.timestamp_counter_ tlb')).
    split.
    + cbn [SMMU.tlb_ SMMU.set_tlb].
      apply (lookup_after_insert (SMMU.tlb_ s)); [by rewrite Hl | | done].
      replace tlb' with (fst (TLB.lookup (SMMU.tlb_ s) va sid asid vmid)) by (by rewrite Hl).
      apply lookup_loop_entries.
    + destruct r as [ok pa mt perm c sh reason]. cbn in *. by subst.
Qed.

(** A translation that has succeeded is answered from the cache from
    then on: the same request gets the same result in any enabled state
    that holds the same cache, whatever has become of the stream table,
    the context descriptors or the page tables in memory.  Only an
    invalidation makes the unit look at them again. *)
Theorem cached_translation_survives mem mem' (s s1 : SMMU.t) va sid asid vmid :
  success (snd (SMMU.translate mem s va sid asid vmid)) = true ->
  SMMU.tlb_ s1 = SMMU.tlb_ (fst (SMMU.translate mem s va sid asid vmid)) ->
  SMMU.enabled_ s1 = true ->
  snd (SMMU.translate mem' s1 va sid asid vmid)
  = snd (SMMU.translate mem s va sid asid vmid).
Proof.
  intros Hok Htlb Hen.
  destruct (translate_success_cached mem s va sid asid vmid Hok) as (_ & e & Hhit & ->).
  rewrite <- Htlb in Hhit.
  by rewrite (translate_hit mem' s1 va sid asid vmid e Hen Hhit).
Qed.

Lemma cached_translation_survives_witness :
  let mem := SimpleMemoryModel.memory_read mem_pages in
  let s1 := SMMU.configure_stream_table_entry
              (fst (SMMU.translate mem smmu_ready 0x1000 0 1 0)) 0 StreamTableEntry.default in
  snd (SMMU.translate (SimpleMemoryModel.memory_read SimpleMemoryModel.init) s1 0x1000 0 1 0)
  = snd (SMMU.translate mem smmu_ready 0x1000 0 1 0).
Proof.
  apply (cached_translation_survives (SimpleMemoryModel.memory_read mem_pages)
           (SimpleMemoryModel.memory_read SimpleMemoryModel.init) smmu_ready).
  - vm_compute. reflexivity.
  - reflexivity.
  - reflexivity.
Defined.

Lemma translate_miss_counts mem (s : SMMU.t) va sid asid vmid :
  SMMU.enabled_ s = true ->
  snd (TLB.lookup (SMMU.tlb_ s) va sid asid vmid) = None ->
  Statistics.tlb_hits (SMMU.stats_ (fst (SMMU.translate mem s va sid asid vmid)))
  = Statistics.tlb_hits (SMMU.stats_ s) ∧
  Statistics.tlb_misses (SMMU.stats_ (fst (SMMU.translate mem s va sid asid vmid)))
  = u64 (Statistics.tlb_misses (SMMU.stats_ s) + 1).
Proof.
  intros Hen Hmiss.
  destruct (translate_outcomes mem s va sid asid vmid)
    as [Hdis | tlb' e _ Hl | tlb' w sid0 asid0 vmid0 va0 r _ Hl Hw Hr
        | tlb' w stage r _ Hl Hw Hr Hreason].
  - congruence.
  - rewrite Hl in Hmiss. discriminate Hmiss.
  - destruct (record_fault_frame (miss_state s tlb' w) sid0 asid0 vmid0 va0 (fault_reason r))
      as (_ & _ & _ & _ & _ & _ & _ & Hh & Hm & _).
    rewrite Hh, Hm. by destruct w as [|[|[|w]]]; [| | |lia].
  - by destruct w as [|[|[|w]]]; [lia| | |lia].
Qed.

(** Scenario S3 in general: on any reachable unit whose command queue
    has room, submitting InvalidateByASID(a) and draining the queue makes
    the next translation under ASID [a] a cache miss, whatever other
    commands were pending. *)
Theorem asid_invalidation_forces_miss (config : SMMUConfig.t) (ops : list smmu_op)
    mem va sid asid vmid :
  let s0 := smmu_run (SMMU.create config) ops in
  let s := SMMU.process_commands (SMMU.submit_command s0 (CMD_TLBI_NH_ASID asid)) in
  Z.of_nat (length (SMMU.command_queue_ s0)) < SMMUConfig.command_queue_size (SMMU.config_ s0) ->
  SMMU.enabled_ s0 = true ->
  snd (TLB.lookup (SMMU.tlb_ s) va sid asid vmid) = None ∧
  Statistics.tlb_hits (SMMU.stats_ (fst (SMMU.translate mem s va sid asid vmid)))
  = Statistics.tlb_hits (SMMU.stats_ s) ∧
  Statistics.tlb_misses (SMMU.stats_ (fst (SMMU.translate mem s va sid asid vmid)))
  = u64 (Statistics.tlb_misses (SMMU.stats_ s) + 1).
Proof.
  cbn zeta. intros Hroom Hen.
  set (s0 := smmu_run (SMMU.create config) ops) in *.
  assert (Hs : SMMU.process_commands (SMMU.submit_command s0 (CMD_TLBI_NH_ASID asid))
               = SMMU.set_command_queue
                   (SMMU.process_command
                      (foldl SMMU.process_command s0 (SMMU.command_queue_ s0))
                      (CMD_TLBI_NH_ASID asid)) []).
  { rewrite process_commands_foldl. unfold SMMU.submit_command.
    destruct (Z.ltb_spec (Z.of_nat (length (SMMU.command_queue_ s0)))
                (SMMUConfig.command_queue_size (SMMU.config_ s0))) as [_|?]; [|lia].
    cbn [SMMU.command_queue_ SMMU.set_command_queue].
    rewrite foldl_process_set_queue, foldl_app. reflexivity. }
  rewrite Hs.
  assert (Hmiss : snd (TLB.lookup
                         (SMMU.tlb_ (SMMU.set_command_queue
                            (SMMU.process_command
                               (foldl SMMU.process_command s0 (SMMU.command_queue_ s0))
                               (CMD_TLBI_NH_ASID asid)) [])) va sid asid vmid) = None).
  { cbn [SMMU.tlb_ SMMU.set_command_queue SMMU.process_command SMMU.set_stats
         SMMU.invalidate_tlb_by_asid SMMU.set_tlb].
    destruct (foldl_process_effect (SMMU.command_queue_ s0) s0) as ([tops2 Htlb2] & _ & _).
    destruct (smmu_run_effect ops (SMMU.create config)) as ([tops1 Htlb1] & _ & _ & _).
    fold s0 in Htlb1. rewrite Htlb2, Htlb1, tlb_run_app.
    apply erase_if_lookup_miss; [apply tlb_run_keyed|].
    intros ps e [= _ _ -> _]. apply Z.eqb_refl. }
  split; [exact Hmiss|].
  apply translate_miss_counts; [|exact Hmiss].
  cbn [SMMU.enabled_ SMMU.set_command_queue SMMU.process_command SMMU.set_stats
       SMMU.invalidate_tlb_by_asid SMMU.set_tlb].
  rewrite <- Hen.
  assert (Hfold : ∀ q (t : SMMU.t),
             SMMU.enabled_ (foldl SMMU.process_command t q) = SMMU.enabled_ t).
  { induction q as [|c q IH]; intros t; cbn [foldl]; [done|].
    rewrite IH. by destruct c. }
  apply Hfold.
Qed.

Lemma asid_invalidation_forces_miss_witness :
  let ops := [OpConfigureStream 0 ste_stage1; OpConfigureContext 0 1 cd_4k; OpEnable;
              OpTranslate (SimpleMemoryModel.memory_read mem_pages) 0x1000 0 1 0] in
  let s0 := smmu_run (SMMU.create SMMUConfig.default) ops in
  let s := SMMU.process_commands (SMMU.submit_command s0 (CMD_TLBI_NH_ASID 1)) in
  let mem := SimpleMemoryModel.memory_read mem_pages in
  snd (TLB.lookup (SMMU.tlb_ s) 0x1000 0 1 0) = None ∧
  Statistics.tlb_hits (SMMU.stats_ (fst (SMMU.translate mem s 0x1000 0 1 0)))
  = Statistics.tlb_hits (SMMU.stats_ s) ∧
  Statistics.tlb_misses (SMMU.stats_ (fst (SMMU.translate mem s 0x1000 0 1 0)))
  = u64 (Statistics.tlb_misses (SMMU.stats_ s) + 1).
Proof.
  apply (asid_invalidation_forces_miss SMMUConfig.default
           [OpConfigureStream 0 ste_stage1; OpConfigureContext 0 1 cd_4k; OpEnable;
            OpTranslate (SimpleMemoryModel.memory_read mem_pages) 0x1000 0 1 0]).
  - vm_compute. reflexivity.
  - vm_compute. reflexivity.
Defined.

(** ** The orchestrator: what a fault event says *)



(** When a stage-1-only stream misses the cache and the translation
    fails, the recorded event does not name the requesting stream: its
    stream ID is 0, its ASID is the one stored in the context descriptor
    that was looked up (0 when there is none) and its VMID is the stream
    table entry's, whatever IDs the request carried.  Its description is
    the reason returned to the caller. *)
Theorem translate_stage1_fault_event mem (s : SMMU.t) va sid asid vmid :
  SMMU.enabled_ s = true ->
  snd (TLB.lookup (SMMU.tlb_ s) va sid asid vmid) = None ->
  StreamTableEntry.valid (SMMU.get_stream_table_entry s sid) = true ->
  StreamTableEntry.s1_enabled (SMMU.get_stream_table_entry s sid) = true ->
  StreamTableEntry.s2_enabled (SMMU.get_stream_table_entry s sid) = false ->
  Z.of_nat (length (SMMU.event_queue_ s)) < SMMUConfig.event_queue_size (SMMU.config_ s) ->
  success (snd (SMMU.translate mem s va sid asid vmid)) = false ->
  SMMU.event_queue_ (fst (SMMU.translate mem s va sid asid vmid))
  = SMMU.event_queue_ s
    ++ [{| Event.fault_type := TRANSLATION_FAULT; Event.stream_id := 0;
           Event.asid := ContextDescriptor.asid (SMMU.get_context_descriptor s sid asid);
           Event.vmid := StreamTableEntry.vmid (SMMU.get_stream_table_entry s sid);
           Event.va := va;
           Event.description := fault_reason (snd (SMMU.translate mem s va sid asid vmid));
           Event.timestamp := SMMU.timestamp_counter_ s |}].
Proof.
  intros Hen Hmiss Hvalid Hs1 Hs2 Hroom.
  destruct (TLB.lookup (SMMU.tlb_ s) va sid asid vmid) as [tlb' o] eqn:Hl.
  cbn [snd] in Hmiss. subst o.
  rewrite (translate_miss_unfold mem s va sid asid vmid tlb' Hen Hl).
  cbn zeta. rewrite Hvalid, Hs1, Hs2. cbn [negb].
  unfold SMMU.translate_stage1.
  destruct (ContextDescriptor.valid (SMMU.get_context_descriptor s sid asid)); cbn [negb].
  - destruct (success (PageTableWalker.translate mem va _ _ _ STAGE1)) eqn:Hok; cbn [negb].
    + rewrite Hok. cbn [negb]. rewrite fill_tlb_success by exact Hok. cbn [snd]. congruence.
    + rewrite Hok. cbn [negb fst snd]. intros _.
      unfold SMMU.generate_event, miss_state, Nat.iter.
      cbn [nat_rect SMMU.event_queue_ SMMU.config_ SMMU.set_stats SMMU.set_tlb
           SMMU.timestamp_counter_].
      destruct (Z.ltb_spec (Z.of_nat (length (SMMU.event_queue_ s)))
                  (SMMUConfig.event_queue_size (SMMU.config_ s))) as [_|?]; [|lia].
      reflexivity.
  - intros _. cbn [fst snd negb success fault].
    unfold SMMU.generate_event, miss_state, Nat.iter.
    cbn [nat_rect SMMU.event_queue_ SMMU.config_ SMMU.set_stats SMMU.set_tlb
         SMMU.timestamp_counter_].
    destruct (Z.ltb_spec (Z.of_nat (length (SMMU.event_queue_ s)))
                (SMMUConfig.event_queue_size (SMMU.config_ s))) as [_|?]; [|lia].
    reflexivity.
Qed.

Lemma translate_stage1_fault_event_witness :
  let mem := SimpleMemoryModel.memory_read mem_pages in
  SMMU.event_queue_ (fst (SMMU.translate mem smmu_ready 0x1000 0 5 9))
  = SMMU.event_queue_ smmu_ready
    ++ [{| Event.fault_type := TRANSLATION_FAULT; Event.stream_id := 0;
           Event.asid := ContextDescriptor.asid (SMMU.get_context_descriptor smmu_ready 0 5);
           Event.vmid := StreamTableEntry.vmid (SMMU.get_stream_table_entry smmu_ready 0);
           Event.va := 0x1000;
           Event.description :=
             fault_reason (snd (SMMU.translate mem smmu_ready 0x1000 0 5 9));
           Event.timestamp := SMMU.timestamp_counter_ smmu_ready |}].
Proof.
  apply (translate_stage1_fault_event (SimpleMemoryModel.memory_read mem_pages)
           smmu_ready 0x1000 0 5 9).
  - reflexivity.
  - vm_compute. reflexivity.
  - reflexivity.
  - reflexivity.
  - reflexivity.
  - vm_compute. reflexivity.
  - vm_compute. reflexivity.
Defined.
